(** * Micro scraper: the [/api/scrape] route

    A shallow embedding of the route handler of [src/app/page.tsx]
    (second document of the file: [sanitize], [isValidHttpUrl],
    [withTimeout], [navigateWithRetry], [extractPageMetadata], [GET])
    and the properties its specification states about it.

    Conventions.
    - A JavaScript string is the list of its UTF-16 code units.
    - A thrown value is a [thrown]; a settled promise or a finished
      call is a [completion].
    - The browser (Playwright) is an oracle: nested records that give
      the outcome of every capability the handler calls.  The handler
      itself is written in a state-and-exception monad whose state
      records, in order, every call made to the browser and every
      console line.
    - What [querySelector] finds is tied to the elements of the
      document in [Dom], where the selector texts have their meaning.
    - The retry loop of [navigateWithRetry] can run for ever (an
      infinite [attempts] and a page that never loads), so it takes a
      bound on the number of iterations; running out of it is [None]. *)

From Stdlib Require Import List ZArith NArith QArith Bool String Ascii Lia.
Import ListNotations.
Close Scope Q_scope.

Set Implicit Arguments.

(* ================================================================= *)
(** ** JavaScript strings *)

Module JsString.

(** A UTF-16 code unit. *)
Definition code_unit := N.

Definition jsstring := list code_unit.

(** An ASCII literal of the program text as a JavaScript string. *)
Definition lit (s : string) : jsstring :=
  map N_of_ascii (list_ascii_of_string s).

Definition SPACE : code_unit := 32%N.

(** The code units matched by the regular expression class [\s], which
    are also the ones [String.prototype.trim] strips: the WhiteSpace
    and LineTerminator productions of ECMAScript (TAB, LF, VT, FF, CR,
    SP, NBSP, the Unicode space separators, LS, PS and the BOM). *)
Definition is_whitespace (c : code_unit) : bool :=
  ((9 <=? c) && (c <=? 13)
   || (c =? 32) || (c =? 160) || (c =? 5760)
   || ((8192 <=? c) && (c <=? 8202))
   || (c =? 8232) || (c =? 8233) || (c =? 8239) || (c =? 8287)
   || (c =? 12288) || (c =? 65279))%N.

(** [a === b] on strings. *)
Fixpoint eqb (a b : jsstring) : bool :=
  match a, b with
  | [], [] => true
  | x :: a', y :: b' => (x =? y)%N && eqb a' b'
  | _, _ => false
  end.

(** [s.replace(/\s+/g, " ")]: scanning left to right, every maximal run
    of whitespace is replaced by one space.  [in_run] tells that the
    previous code unit belonged to the run being replaced. *)
Fixpoint replace_runs (in_run : bool) (s : jsstring) : jsstring :=
  match s with
  | [] => []
  | c :: rest =>
      if is_whitespace c
      then if in_run then replace_runs true rest
           else SPACE :: replace_runs true rest
      else c :: replace_runs false rest
  end.

Definition replace_whitespace (s : jsstring) : jsstring :=
  replace_runs false s.

(** [String.prototype.trimStart]. *)
Fixpoint trimStart (s : jsstring) : jsstring :=
  match s with
  | [] => []
  | c :: rest => if is_whitespace c then trimStart rest else s
  end.

(** [String.prototype.trimEnd]. *)
Fixpoint trimEnd (s : jsstring) : jsstring :=
  match s with
  | [] => []
  | c :: rest =>
      match trimEnd rest with
      | [] => if is_whitespace c then [] else [c]
      | kept => c :: kept
      end
  end.

(** [String.prototype.trim]. *)
Definition trim (s : jsstring) : jsstring := trimEnd (trimStart s).

End JsString.
Import JsString.

(** [const sanitize = (value?: string | null) =>
      (value ?? '').replace(/\s+/g, ' ').trim();]
    [None] stands for [null] and [undefined]. *)
Definition sanitize (value : option jsstring) : jsstring :=
  trim (replace_whitespace (match value with Some v => v | None => [] end)).

(* ----------------------------------------------------------------- *)
(** *** What the specification calls whitespace-normalized *)

Module Normal.

(** The fields of a string: what lies between single whitespace code
    units (as [s.split(/\s/)]). *)
Fixpoint fields (s : jsstring) : list jsstring :=
  match s with
  | [] => [[]]
  | c :: rest =>
      if is_whitespace c then [] :: fields rest
      else match fields rest with
           | f :: fs => (c :: f) :: fs
           | [] => [[c]]
           end
  end.

Definition nonempty (w : jsstring) : bool :=
  match w with [] => false | _ :: _ => true end.

(** The words of a string: its maximal runs of non-whitespace. *)
Definition words (s : jsstring) : list jsstring :=
  filter nonempty (fields s).

(** The words joined by single spaces. *)
Fixpoint unwords (ws : list jsstring) : jsstring :=
  match ws with
  | [] => []
  | w :: rest =>
      w ++ match rest with
           | [] => []
           | _ :: _ => SPACE :: unwords rest
           end
  end.

(** The specification's normal form of a possibly absent string. *)
Definition normalize (value : option jsstring) : jsstring :=
  match value with
  | None => []
  | Some s => unwords (words s)
  end.

Definition no_leading_whitespace (s : jsstring) : Prop :=
  match s with
  | [] => True
  | c :: _ => is_whitespace c = false
  end.

Definition no_trailing_whitespace (s : jsstring) : Prop :=
  no_leading_whitespace (rev s).

(** No two neighbouring code units are both whitespace. *)
Fixpoint no_doubled_whitespace (s : jsstring) : Prop :=
  match s with
  | [] => True
  | c :: rest =>
      match rest with
      | [] => True
      | d :: _ => is_whitespace c && is_whitespace d = false
      end /\ no_doubled_whitespace rest
  end.

(** Whatever whitespace remains is the plain space U+0020. *)
Definition only_plain_spaces (s : jsstring) : Prop :=
  Forall (fun c => is_whitespace c = true -> c = SPACE) s.

(** A string is clean when it holds no whitespace at all. *)
Definition clean (w : jsstring) : Prop :=
  Forall (fun c => is_whitespace c = false) w.

Definition normalized (s : jsstring) : Prop :=
  no_leading_whitespace s /\ no_trailing_whitespace s
  /\ no_doubled_whitespace s /\ only_plain_spaces s.

End Normal.

(* ================================================================= *)
(** ** JavaScript numbers, as far as the retry counter needs them *)

Module JsNumber.

(** A [number]: an IEEE-754 double is NaN, an infinity or a rational.
    (Every finite double is a rational; the model takes every
    rational, which only widens the inputs considered.) *)
Inductive number : Type :=
| NaN
| NegInfinity
| PosInfinity
| Finite (q : Q).

Definition of_Z (n : Z) : number := Finite (inject_Z n).

(** [a <= b] *)
Definition le (a b : number) : bool :=
  match a, b with
  | NaN, _ | _, NaN => false
  | NegInfinity, _ => true
  | _, PosInfinity => true
  | PosInfinity, _ => false
  | Finite _, NegInfinity => false
  | Finite x, Finite y => Qle_bool x y
  end.

(** [a < b] *)
Definition lt (a b : number) : bool :=
  match a, b with
  | NaN, _ | _, NaN => false
  | _, NegInfinity => false
  | NegInfinity, _ => true
  | PosInfinity, _ => false
  | Finite _, PosInfinity => true
  | Finite x, Finite y => negb (Qle_bool y x)
  end.

(** [a === b] *)
Definition strict_eq (a b : number) : bool :=
  match a, b with
  | NegInfinity, NegInfinity => true
  | PosInfinity, PosInfinity => true
  | Finite x, Finite y => Qeq_bool x y
  | _, _ => false
  end.

(** Doubles represent every integer up to [2^53] exactly. *)
Definition MAX_EXACT : Z := 9007199254740992.

(** [n += 1] on a counter that holds an integer between 1 and [2^53]:
    exact below [2^53]; at [2^53] the sum [2^53 + 1] is not a double
    and rounds (to even) back to [2^53]. *)
Definition incr (n : Z) : Z :=
  if (n <? MAX_EXACT)%Z then (n + 1)%Z else n.

End JsNumber.
Import JsNumber.

(* ================================================================= *)
(** ** Thrown values and completions *)

(** A value thrown by the browser capability.  The route can tell two
    things about it: whether it is an [Error], and its [message]. *)
Record foreign : Type := {
  foreign_is_Error : bool;
  foreign_message : jsstring
}.

(** The values that can be thrown inside the route.  The class
    [RequestTimeoutError] is private to the module, so no value coming
    from the browser is an instance of it. *)
Inductive thrown : Type :=
| RequestTimeoutError_new               (* new RequestTimeoutError() *)
| Error_new (message : jsstring)        (* new Error(message) *)
| Raised (v : foreign).                 (* thrown by Playwright *)

Definition instanceof_Error (e : thrown) : bool :=
  match e with
  | RequestTimeoutError_new => true
  | Error_new _ => true
  | Raised v => foreign_is_Error v
  end.

Definition instanceof_RequestTimeoutError (e : thrown) : bool :=
  match e with
  | RequestTimeoutError_new => true
  | _ => false
  end.

(** [error.message], for an [error] that is an [Error]. *)
Definition message_of (e : thrown) : jsstring :=
  match e with
  | RequestTimeoutError_new => lit "Timeout"
  | Error_new m => m
  | Raised v => foreign_message v
  end.

(** How a call ends, or how a promise settles. *)
Inductive completion (A : Type) : Type :=
| Normal (a : A)
| Throw (e : thrown).
Arguments Normal {A} a.
Arguments Throw {A} e.

(* ================================================================= *)
(** ** The browser capability *)

Module Playwright.

(** How a call of the browser ends: with a value, or by throwing a
    value of its own. *)
Inductive reply (A : Type) : Type :=
| Done (a : A)
| Failed (v : foreign).
Arguments Done {A} a.
Arguments Failed {A} v.

(** The navigation response; the route reads only [status()]. *)
Record Response : Type := { status : Z }.

Record Element : Type := {
  getAttribute : string -> option jsstring;
  textContent : option jsstring
}.

Record Document : Type := {
  title : option jsstring;
  querySelector : string -> option Element
}.

(** A page: the outcome of its [n]-th call of [goto] (from 0), of the
    wait for network quiescence, and the document [evaluate] runs its
    callback on (or the error it throws instead).  Every call is
    answered: a navigation that hangs ends by its own 15 s timeout. *)
Record Page : Type := {
  goto_outcome : nat -> reply (option Response);
  waitForLoadState_outcome : reply unit;
  evaluate_outcome : reply Document
}.

Record BrowserContext : Type := {
  newPage_outcome : reply Page
}.

Record Browser : Type := {
  newContext_outcome : reply BrowserContext;
  close_outcome : reply unit
}.

Record Chromium : Type := {
  launch_outcome : reply Browser
}.

End Playwright.
Import Playwright.

(** A line written to the console.  The elapsed time that the route
    prints with two of them is left out. *)
Inductive console_line : Type :=
| RetryingLine (attempt : Z)
    (* [Scraper] Navigation attempt ${attempt} failed, retrying... *)
| NetworkIdleLine
    (* [Scraper] Network idle timeout, proceeding with available content *)
| CloseFailedLine (err : thrown)
    (* [Scraper] Failed to close browser: *)
| ScrapedLine (url : jsstring)
    (* [Scraper] Successfully scraped ${targetUrl} in ${duration}ms *)
| FailedLine (url : jsstring) (errorMessage : jsstring).
    (* [Scraper] Failed after ${duration}ms for ${targetUrl}: *)

(** What the route does to the outside, in order. *)
Inductive event : Type :=
| Launch
| NewContext
| NewPage
| Goto (url : jsstring) (timeout : Z)
| WaitForLoadState (timeout : Z)
| Evaluate
| Close
| ConsoleLog (line : console_line)
| ConsoleError (line : console_line).

(* ================================================================= *)
(** ** The effect monad *)

Module Effect.

Record state : Type := {
  trace : list event;          (* everything done so far, oldest first *)
  navigations : nat;           (* calls of [page.goto] so far *)
  instance : option Browser    (* the variable [instance] of the extractor *)
}.

Definition initial : state :=
  {| trace := []; navigations := 0; instance := None |}.

(** [None]: the bound on loop iterations was reached. *)
Definition M (A : Type) : Type := state -> option (completion A * state).

Definition ret {A} (a : A) : M A := fun s => Some (Normal a, s).

Definition throw {A} (e : thrown) : M A := fun s => Some (Throw e, s).

Definition out_of_fuel {A} : M A := fun _ => None.

Definition bind {A B} (m : M A) (f : A -> M B) : M B :=
  fun s =>
    match m s with
    | None => None
    | Some (Normal a, s') => f a s'
    | Some (Throw e, s') => Some (Throw e, s')
    end.

(** [try { return m } catch (error) { handler }], and [m.catch(handler)]. *)
Definition try_catch {A} (m : M A) (handler : thrown -> M A) : M A :=
  fun s =>
    match m s with
    | None => None
    | Some (Normal a, s') => Some (Normal a, s')
    | Some (Throw e, s') => handler e s'
    end.

(** [try { m } finally { cleanup }]: the cleanup runs on both ways out;
    if it throws, its error replaces the outcome of [m]. *)
Definition try_finally {A} (m : M A) (cleanup : M unit) : M A :=
  fun s =>
    match m s with
    | None => None
    | Some (c, s') =>
        match cleanup s' with
        | None => None
        | Some (Normal _, s'') => Some (c, s'')
        | Some (Throw e, s'') => Some (Throw e, s'')
        end
    end.

Definition emit (e : event) : M unit :=
  fun s => Some (Normal tt, {| trace := trace s ++ [e];
                               navigations := navigations s;
                               instance := instance s |}).

Definition get_instance : M (option Browser) :=
  fun s => Some (Normal (instance s), s).

Definition set_instance (b : option Browser) : M unit :=
  fun s => Some (Normal tt, {| trace := trace s;
                               navigations := navigations s;
                               instance := b |}).

Definition get_navigations : M nat :=
  fun s => Some (Normal (navigations s), s).

Definition count_navigation : M unit :=
  fun s => Some (Normal tt, {| trace := trace s;
                               navigations := S (navigations s);
                               instance := instance s |}).

(** The reply of the browser as the end of a call. *)
Definition settle {A} (r : reply A) : M A :=
  match r with
  | Done a => ret a
  | Failed v => throw (Raised v)
  end.

Definition when (b : bool) (m : M unit) : M unit :=
  if b then m else ret tt.

End Effect.
Import Effect.

Declare Scope effect_scope.
Delimit Scope effect_scope with eff.
Notation "x <- m ;; k" := (bind m (fun x => k))
  (at level 61, m at next level, right associativity) : effect_scope.
Notation "m ;; k" := (bind m (fun _ => k))
  (at level 61, right associativity) : effect_scope.
Open Scope effect_scope.

(* ================================================================= *)
(** ** The route *)

Definition REQUEST_TIMEOUT_MS : Z := 20000.
Definition NAVIGATION_TIMEOUT_MS : Z := 15000.
Definition NETWORK_IDLE_TIMEOUT_MS : Z := 5000.

(** Modelled from the spec: the type [PageResponse] of [@/types], which
    is not among the sources; section 3 gives its four fields. *)
Record PageResponse : Type := {
  pr_title : jsstring;
  pr_metaDescription : jsstring;
  pr_h1 : jsstring;
  pr_status : Z
}.

(** The body of a JSON response of the route. *)
Inductive json_body : Type :=
| ErrorBody (error : jsstring)          (* { error: ... } *)
| PayloadBody (payload : PageResponse).

Record NextResponse : Type := {
  body : json_body;
  http_status : Z;
  cache_control : option jsstring
}.

Definition invalidUrlResponse : NextResponse :=
  {| body := ErrorBody (lit "Invalid URL");
     http_status := 400; cache_control := None |}.

Definition timeoutResponse : NextResponse :=
  {| body := ErrorBody (lit "Timeout");
     http_status := 504; cache_control := None |}.

(* ----------------------------------------------------------------- *)
(** *** [isValidHttpUrl] *)

(** What [new URL(value)] yields; the route reads only [protocol]. *)
Record URL : Type := { protocol : jsstring }.

Section Validation.

(** The WHATWG URL parser of the platform: [None] when
    [new URL(value)] throws. *)
Variable new_URL : jsstring -> option URL.

Definition isValidHttpUrl (value : jsstring) : bool :=
  match new_URL value with
  | Some parsed =>
      existsb (JsString.eqb (protocol parsed)) [lit "http:"; lit "https:"]
  | None => false
  end.

End Validation.

(* ----------------------------------------------------------------- *)
(** *** [withTimeout] *)

Module Deadline.

Inductive timer_status : Type :=
| Armed        (* set, not yet fired *)
| Cleared      (* clearTimeout reached it first *)
| Fired.       (* its callback has run *)

(** The promise built by [withTimeout] together with the two things it
    listens to.  [operation] and [outer] are [None] while pending. *)
Record guard (T : Type) : Type := {
  operation : option (completion T);   (* the argument [promise] *)
  timer : timer_status;                (* the timer of [setTimeout] *)
  delay : Z;                           (* its delay, [timeout] *)
  outer : option (completion T)        (* the promise returned *)
}.

(** What the event loop can deliver to the guard. *)
Inductive guard_event (T : Type) : Type :=
| OperationSettles (c : completion T)
| TimerElapses.
Arguments TimerElapses {T}.

Section Guard.
Variable T : Type.

(** [resolve(v)] and [reject(e)] of a promise: the first call
    settles it, later calls do nothing. *)
Definition settle_once (p : option (completion T)) (c : completion T)
  : option (completion T) :=
  match p with
  | None => Some c
  | Some _ => p
  end.

Definition clearTimeout (t : timer_status) : timer_status :=
  match t with
  | Armed => Cleared
  | other => other
  end.

(** The executor of [new Promise]: the timer is set and the two
    reactions are attached to [promise]. *)
Definition withTimeout (timeout : Z) : guard T :=
  {| operation := None; timer := Armed; delay := timeout;
     outer := None |}.

(** [() => { reject(new RequestTimeoutError()); }] *)
Definition on_timer (g : guard T) : guard T :=
  {| operation := operation g; timer := Fired; delay := delay g;
     outer := settle_once (outer g) (Throw RequestTimeoutError_new) |}.

(** [(value) => { clearTimeout(timer); resolve(value); }] and
    [(error) => { clearTimeout(timer); reject(error); }] *)
Definition on_settled (c : completion T) (g : guard T) : guard T :=
  {| operation := Some c; timer := clearTimeout (timer g);
     delay := delay g;
     outer := settle_once (outer g) c |}.

(** One turn of the event loop.  A promise settles once and a timer
    fires only while it is armed. *)
Definition deliver (g : guard T) (ev : guard_event T) : guard T :=
  match ev with
  | OperationSettles c =>
      match operation g with
      | None => on_settled c g
      | Some _ => g
      end
  | TimerElapses =>
      match timer g with
      | Armed => on_timer g
      | _ => g
      end
  end.

Definition run (g : guard T) (evs : list (guard_event T)) : guard T :=
  fold_left deliver evs g.

End Guard.

(** Which of the two the event loop delivers first. *)
Inductive race_order : Type :=
| OperationFirst
| TimerFirst.

Definition schedule {T} (order : race_order) (c : completion T)
  : list (guard_event T) :=
  match order with
  | OperationFirst => [OperationSettles c; TimerElapses]
  | TimerFirst => [TimerElapses; OperationSettles c]
  end.

(** [await withTimeout(op, timeout)], the operation having been started
    by the caller: its effects take place whoever wins. *)
Definition await_withTimeout {T} (op : M T) (timeout : Z)
  (order : race_order) : M T :=
  fun s =>
    match op s with
    | None => None
    | Some (c, s') =>
        match outer (run (withTimeout T timeout) (schedule order c)) with
        | Some c' => Some (c', s')
        | None => None
        end
    end.

End Deadline.
Import Deadline.

(* ----------------------------------------------------------------- *)
(** *** Calls of the browser capability *)

Definition chromium_launch (chromium : Chromium) : M Browser :=
  emit Launch ;; settle (launch_outcome chromium).

Definition newContext (instance : Browser) : M BrowserContext :=
  emit NewContext ;; settle (newContext_outcome instance).

Definition newPage (context : BrowserContext) : M Page :=
  emit NewPage ;; settle (newPage_outcome context).

Definition page_goto (page : Page) (url : jsstring) (timeout : Z)
  : M (option Response) :=
  n <- get_navigations ;;
  emit (Goto url timeout) ;;
  count_navigation ;;
  settle (goto_outcome page n).

Definition waitForLoadState (page : Page) (timeout : Z) : M unit :=
  emit (WaitForLoadState timeout) ;; settle (waitForLoadState_outcome page).

Definition page_evaluate {A} (page : Page) (callback : Document -> A) : M A :=
  emit Evaluate ;;
  document <- settle (evaluate_outcome page) ;;
  ret (callback document).

Definition browser_close (instance : Browser) : M unit :=
  emit Close ;; settle (close_outcome instance).

Definition console_log (line : console_line) : M unit :=
  emit (ConsoleLog line).

Definition console_error (line : console_line) : M unit :=
  emit (ConsoleError line).

(* ----------------------------------------------------------------- *)
(** *** [navigateWithRetry] *)

(** The [throw] after the loop. *)
Definition fallback_error (lastError : option thrown) : thrown :=
  match lastError with
  | Some e => if instanceof_Error e then e
              else Error_new (lit "Navigation failed")
  | None => Error_new (lit "Navigation failed")
  end.

(** The three ways out of the [for] loop. *)
Inductive loop_exit : Type :=
| ReturnedInLoop (response : option Response)
    (* return await page.goto(...) *)
| ThrownInLoop (error : thrown)
    (* throw error, under [attempt === attempts] *)
| LoopEnded (lastError : option thrown).
    (* the condition [attempt <= attempts] is false *)

(** The [for] loop from the test of its condition on, [attempt] and
    [lastError] being its two variables; the result tells how the loop
    is left.  [fuel] bounds the number of times the body runs. *)
Fixpoint retry_loop (fuel : nat) (page : Page) (url : jsstring)
  (attempts : number) (attempt : Z) (lastError : option thrown)
  : M loop_exit :=
  if JsNumber.le (of_Z attempt) attempts then
    match fuel with
    | O => out_of_fuel
    | S fuel' =>
        try_catch
          (response <- page_goto page url NAVIGATION_TIMEOUT_MS ;;
           ret (ReturnedInLoop response))
          (fun error =>
             when (JsNumber.lt (of_Z attempt) attempts)
                  (console_log (RetryingLine attempt)) ;;
             if strict_eq (of_Z attempt) attempts
             then ret (ThrownInLoop error)
             else retry_loop fuel' page url attempts (incr attempt)
                             (Some error))
    end
  else ret (LoopEnded lastError).

Definition default_attempts : number := of_Z 2.

(** How the function ends for each way out of the loop; the last case
    is the [throw] after the loop. *)
Definition leave (exit : loop_exit) : M (option Response) :=
  match exit with
  | ReturnedInLoop response => ret response
  | ThrownInLoop error => throw error
  | LoopEnded lastError => throw (fallback_error lastError)
  end.

(** [attempts = None] is a call without the third argument. *)
Definition navigateWithRetry (fuel : nat) (page : Page) (url : jsstring)
  (attempts : option number) : M (option Response) :=
  exit <- retry_loop fuel page url
            (match attempts with Some a => a | None => default_attempts end)
            1 None ;;
  leave exit.

(* ----------------------------------------------------------------- *)
(** *** [extractPageMetadata] *)

Definition dq : string := String (ascii_of_nat 34) EmptyString.

Definition meta_description_selector : string :=
  ("meta[name=" ++ dq ++ "description" ++ dq ++ "]")%string.

Definition og_description_selector : string :=
  ("meta[property=" ++ dq ++ "og:description" ++ dq ++ "]")%string.

(** [a ?? b] with a [b] that can itself be absent, and with a [b] that
    cannot. *)
Definition or_else {A} (a b : option A) : option A :=
  match a with
  | Some _ => a
  | None => b
  end.

Definition or_default {A} (a : option A) (b : A) : A :=
  match a with
  | Some v => v
  | None => b
  end.

(** [element?.getAttribute(name)] *)
Definition attribute_of (element : option Element) (name : string)
  : option jsstring :=
  match element with
  | Some e => getAttribute e name
  | None => None
  end.

(** [element?.textContent] *)
Definition text_of (element : option Element) : option jsstring :=
  match element with
  | Some e => textContent e
  | None => None
  end.

Record page_data : Type := {
  data_title : jsstring;
  data_metaDescription : jsstring;
  data_h1 : jsstring
}.

(** The callback given to [page.evaluate]. *)
Definition read_fields (document : Document) : page_data :=
  let primaryTitle := or_default (title document) [] in
  let meta :=
    or_default
      (or_else
         (attribute_of (querySelector document meta_description_selector)
                       "content")
         (attribute_of (querySelector document og_description_selector)
                       "content"))
      [] in
  let heading := or_default (text_of (querySelector document "h1")) [] in
  {| data_title := primaryTitle;
     data_metaDescription := meta;
     data_h1 := heading |}.

(** [response?.status() ?? 200] *)
Definition status_of (response : option Response) : Z :=
  or_default (option_map status response) 200%Z.

(** The object returned at the end of the [try] block. *)
Definition page_response (data : page_data) (response : option Response)
  : PageResponse :=
  {| pr_title := sanitize (Some (data_title data));
     pr_metaDescription := sanitize (Some (data_metaDescription data));
     pr_h1 := sanitize (Some (data_h1 data));
     pr_status := status_of response |}.

(** The [finally] block:
    [if (instance) { await instance.close().catch((err) => error(err)); }] *)
Definition release : M unit :=
  instance <- get_instance ;;
  match instance with
  | Some b =>
      try_catch (browser_close b)
                (fun err => console_error (CloseFailedLine err))
  | None => ret tt
  end.

(** The [try] block:
    [instance = await chromium.launch(...);]
    [const context = await instance.newContext(...);]
    [const page = await context.newPage();]
    [const response = await navigateWithRetry(page, url);]
    [await page.waitForLoadState("networkidle", ...).catch(() => log);]
    [const data = await page.evaluate(...);]
    [return { ... };] *)
Definition extract_body (chromium : Chromium) (fuel : nat) (url : jsstring)
  : M PageResponse :=
  instance <- chromium_launch chromium ;;
  set_instance (Some instance) ;;
  context <- newContext instance ;;
  page <- newPage context ;;
  response <- navigateWithRetry fuel page url None ;;
  try_catch (waitForLoadState page NETWORK_IDLE_TIMEOUT_MS)
            (fun _ => console_log NetworkIdleLine) ;;
  data <- page_evaluate page read_fields ;;
  ret (page_response data response).

(** [let instance = null; try { ... } finally { ... }] *)
Definition extractPageMetadata (chromium : Chromium) (fuel : nat)
  (url : jsstring) : M PageResponse :=
  set_instance None ;;
  try_finally (extract_body chromium fuel url) release.

(* ----------------------------------------------------------------- *)
(** *** [GET] *)

Definition success_cache_control : jsstring :=
  lit "public, s-maxage=3600, stale-while-revalidate=86400".

Definition failureResponse : NextResponse :=
  {| body := ErrorBody (lit "Unable to complete scrape");
     http_status := 500; cache_control := None |}.

(** [!targetUrl]: [null] and the empty string are falsy. *)
Definition falsy (targetUrl : option jsstring) : bool :=
  match targetUrl with
  | None => true
  | Some [] => true
  | Some (_ :: _) => false
  end.

Section Handler.

Variable new_URL : jsstring -> option URL.
Variable chromium : Chromium.

(** The request is given by [request.nextUrl.searchParams.get("url")];
    [order] tells which of the extraction and the 20 s timer the event
    loop serves first.  First
    [if (!targetUrl || !isValidHttpUrl(targetUrl)) return invalidUrlResponse();]
    then the [try] with the awaited race, the log and the 200 response,
    and the [catch] that tells [RequestTimeoutError] from the rest. *)
Definition GET (fuel : nat) (targetUrl : option jsstring)
  (order : race_order) : M NextResponse :=
  if falsy targetUrl
     || negb (isValidHttpUrl new_URL (or_default targetUrl []))
  then ret invalidUrlResponse
  else
    let url := or_default targetUrl [] in
    try_catch
      (payload <- await_withTimeout
                    (extractPageMetadata chromium fuel url)
                    REQUEST_TIMEOUT_MS order ;;
       console_log (ScrapedLine url) ;;
       ret {| body := PayloadBody payload; http_status := 200;
              cache_control := Some success_cache_control |})
      (fun error =>
         if instanceof_RequestTimeoutError error then ret timeoutResponse
         else
           let errorMessage :=
             if instanceof_Error error then message_of error
             else lit "Unknown error" in
           console_error (FailedLine url errorMessage) ;;
           ret failureResponse).

End Handler.

(* ================================================================= *)
(** ** Notions used in the statements *)

(** The state [s] after the events [evs], [navs] of them navigations. *)
Definition after (s : state) (evs : list event) (navs : nat) : state :=
  {| trace := trace s ++ evs;
     navigations := navs + navigations s;
     instance := instance s |}.

(** The state [s] after [let instance = null]. *)
Definition fresh (s : state) : state :=
  {| trace := trace s; navigations := navigations s; instance := None |}.

(** How a run ends, its final state left out. *)
Definition outcome {A} (r : option (completion A * state))
  : option (completion A) :=
  option_map fst r.

Definition is_close (e : event) : bool :=
  match e with
  | Close => true
  | _ => false
  end.

(** The number of calls of [instance.close()] among [evs]. *)
Definition closes (evs : list event) : nat :=
  List.length (filter is_close evs).

(** [attempts] is the whole number [k]. *)
Definition whole (attempts : number) (k : Z) : Prop :=
  match attempts with
  | Finite q => Qeq q (inject_Z k)
  | _ => False
  end.

Definition map_reply {A B} (f : A -> B) (r : reply A) : reply B :=
  match r with
  | Done a => Done (f a)
  | Failed v => Failed v
  end.

(** The browser [chromium], except that on its page the wait for
    network quiescence ends as [quiescence]. *)
Definition with_quiescence (quiescence : reply unit)
  (chromium : Chromium) : Chromium :=
  let on_page (p : Page) :=
    {| goto_outcome := goto_outcome p;
       waitForLoadState_outcome := quiescence;
       evaluate_outcome := evaluate_outcome p |} in
  let on_context (c : BrowserContext) :=
    {| newPage_outcome := map_reply on_page (newPage_outcome c) |} in
  let on_browser (b : Browser) :=
    {| newContext_outcome :=
         map_reply on_context (newContext_outcome b);
       close_outcome := close_outcome b |} in
  {| launch_outcome := map_reply on_browser (launch_outcome chromium) |}.

(* ================================================================= *)
(** ** The document as a list of elements

    [querySelector] belongs to the browser.  To say which elements the
    route reads, a document is also given as the list of its elements
    in tree order, and the selector texts are given the meaning the
    browser gives them (Selectors Level 4), for the two forms the route
    needs: a type selector, as in [h1], and a type selector with one
    attribute selector, as in [a[rel="next"]]. *)

Module Dom.

(** An element of an HTML document: its local name and the names of
    its attributes in lower case, as the parser leaves them, and its
    text content. *)
Record node : Type := {
  localName : string;
  attributes : list (string * jsstring);
  text : jsstring
}.

(** [element.getAttribute(name)] *)
Definition attribute (name : string) (e : node) : option jsstring :=
  option_map snd
    (find (fun a => String.eqb (fst a) name) (attributes e)).

(** The element as the callback of [evaluate] sees it. *)
Definition element (e : node) : Element :=
  {| getAttribute := fun name => attribute name e;
     textContent := Some (text e) |}.

Inductive selector : Type :=
| TypeSelector (tag : string)
| AttributeSelector (tag name value : string).

(** Whether [e] is one of the elements [sel] denotes.  The value of
    the attribute is compared as it is written. *)
Definition matches (sel : selector) (e : node) : bool :=
  match sel with
  | TypeSelector tag => String.eqb (localName e) tag
  | AttributeSelector tag name value =>
      String.eqb (localName e) tag
      && match attribute name e with
         | Some v => JsString.eqb v (lit value)
         | None => false
         end
  end.

(** The first element, in tree order, that [sel] matches. *)
Definition first_match (sel : selector) (nodes : list node)
  : option node :=
  find (matches sel) nodes.

(** The attribute [name] of that element, if both exist. *)
Definition attribute_of_first (sel : selector) (name : string)
  (nodes : list node) : option jsstring :=
  match first_match sel nodes with
  | Some e => attribute name e
  | None => None
  end.

(** *** Selector texts *)

Definition quote : ascii := ascii_of_nat 34.

Definition is_letter (c : ascii) : bool :=
  let n := nat_of_ascii c in ((97 <=? n) && (n <=? 122))%nat.

Definition is_name_char (c : ascii) : bool :=
  let n := nat_of_ascii c in
  (is_letter c || (48 <=? n) && (n <=? 57) || (n =? 45))%nat.

Fixpoint is_name (s : string) : bool :=
  match s with
  | EmptyString => true
  | String c rest => is_name_char c && is_name rest
  end.

(** A lower-case letter, then lower-case letters, digits and
    hyphens. *)
Definition is_identifier (s : string) : bool :=
  match s with
  | EmptyString => false
  | String c rest => is_letter c && is_name rest
  end.

(** The attributes whose values HTML compares without regard to
    case; [name], [property] and [content] are not among them. *)
Definition compared_without_case : list string :=
  [ "accept"; "accept-charset"; "align"; "alink"; "axis"; "bgcolor";
    "charset"; "checked"; "clear"; "codetype"; "color"; "compact";
    "declare"; "defer"; "dir"; "direction"; "disabled"; "enctype";
    "face"; "frame"; "hreflang"; "http-equiv"; "lang"; "language";
    "link"; "media"; "method"; "multiple"; "nohref"; "noresize";
    "noshade"; "nowrap"; "readonly"; "rel"; "rev"; "rules"; "scope";
    "scrolling"; "selected"; "shape"; "target"; "text"; "type";
    "valign"; "valuetype"; "vlink" ]%string.

Definition is_attribute_name (s : string) : bool :=
  is_identifier s && negb (existsb (String.eqb s) compared_without_case).

(** The text before the first [stop], and the text after it. *)
Fixpoint split_at (stop : ascii) (s : string)
  : option (string * string) :=
  match s with
  | EmptyString => None
  | String c rest =>
      if Ascii.eqb c stop then Some (EmptyString, rest)
      else match split_at stop rest with
           | Some (before, after) => Some (String c before, after)
           | None => None
           end
  end.

Definition is_plain_char (c : ascii) : bool :=
  negb (Ascii.eqb c quote) && negb (Ascii.eqb c (ascii_of_nat 92)).

Fixpoint is_plain (s : string) : bool :=
  match s with
  | EmptyString => true
  | String c rest => is_plain_char c && is_plain rest
  end.

(** [tag] and [tag[name="value"]]: identifiers as above, the
    attribute one whose value is compared as written, and a quoted
    value without escapes.  No other text is understood. *)
Definition parse (s : string) : option selector :=
  match split_at "["%char s with
  | None => if is_identifier s then Some (TypeSelector s) else None
  | Some (tag, rest) =>
      match split_at "="%char rest with
      | Some (name, String q quoted) =>
          match split_at quote quoted with
          | Some (value, closing) =>
              if Ascii.eqb q quote && String.eqb closing "]"
                 && is_identifier tag && is_attribute_name name
                 && is_plain value
              then Some (AttributeSelector tag name value)
              else None
          | None => None
          end
      | _ => None
      end
  end.

(** [document.querySelector(s)] on the elements [nodes]. *)
Definition query (nodes : list node) (s : string) : option Element :=
  match parse s with
  | Some sel => option_map element (first_match sel nodes)
  | None => None
  end.

(** The elements of [document] are [nodes]: on every selector text
    understood here, its [querySelector] returns the first element
    that matches. *)
Definition shows (document : Document) (nodes : list node) : Prop :=
  forall s sel,
    parse s = Some sel ->
    querySelector document s = option_map element (first_match sel nodes).

(** The document with the title [heading] and the elements [nodes]. *)
Definition document (heading : option jsstring) (nodes : list node)
  : Document :=
  {| title := heading; querySelector := query nodes |}.

End Dom.

(* ================================================================= *)
(** ** Concrete browsers, pages and requests *)

Module Examples.

(** A URL parser small enough for examples: it accepts
    [scheme:rest] with a lower-case scheme and a non-empty rest. *)
Fixpoint split_scheme (s : jsstring) : option (jsstring * jsstring) :=
  match s with
  | [] => None
  | c :: rest =>
      if (c =? 58)%N then Some ([], rest)
      else if ((97 <=? c) && (c <=? 122))%N then
        match split_scheme rest with
        | Some (scheme, r) => Some (c :: scheme, r)
        | None => None
        end
      else None
  end.

Definition new_URL (s : jsstring) : option URL :=
  match split_scheme s with
  | Some (c :: scheme, _ :: _) =>
      Some {| protocol := (c :: scheme) ++ [58%N] |}
  | _ => None
  end.

Definition target : jsstring := lit "https://example.com/".

Definition name_not_resolved : foreign :=
  {| foreign_is_Error := true;
     foreign_message := lit "net::ERR_NAME_NOT_RESOLVED" |}.

Definition idle_timeout : foreign :=
  {| foreign_is_Error := true;
     foreign_message := lit "Timeout 5000ms exceeded." |}.

Definition target_closed : foreign :=
  {| foreign_is_Error := true;
     foreign_message := lit "Target closed" |}.

(** [<title>Example</title>], no [meta name="description"],
    [og:description] with content ["  A   test site  "], and one
    [<h1>Welcome</h1>]. *)
Definition elements : list Dom.node :=
  [ {| Dom.localName := "html"; Dom.attributes := [];
       Dom.text := lit "ExampleWelcome" |};
    {| Dom.localName := "head"; Dom.attributes := [];
       Dom.text := lit "Example" |};
    {| Dom.localName := "title"; Dom.attributes := [];
       Dom.text := lit "Example" |};
    {| Dom.localName := "meta";
       Dom.attributes := [("property"%string, lit "og:description");
                          ("content"%string, lit "  A   test site  ")];
       Dom.text := [] |};
    {| Dom.localName := "body"; Dom.attributes := [];
       Dom.text := lit "Welcome" |};
    {| Dom.localName := "h1"; Dom.attributes := [];
       Dom.text := lit "Welcome" |} ].

Definition document : Document :=
  Dom.document (Some (lit "Example")) elements.

Definition ok (code : Z) : reply (option Response) :=
  Done (Some {| status := code |}).

(** A session that opens and closes without failure around [page]. *)
Definition session (page : Page) : Chromium :=
  {| launch_outcome :=
       Done {| newContext_outcome :=
                   Done {| newPage_outcome := Done page |};
                 close_outcome := Done tt |} |}.

Definition loaded_page : Page :=
  {| goto_outcome := fun _ => ok 200;
     waitForLoadState_outcome := Done tt;
     evaluate_outcome := Done document |}.

(** The page never goes quiet. *)
Definition busy_page : Page :=
  {| goto_outcome := fun _ => ok 200;
     waitForLoadState_outcome := Failed idle_timeout;
     evaluate_outcome := Done document |}.

(** The first navigation fails, the later ones succeed. *)
Definition flaky_page : Page :=
  {| goto_outcome := fun n =>
       match n with
       | O => Failed name_not_resolved
       | S _ => ok 200
       end;
     waitForLoadState_outcome := Done tt;
     evaluate_outcome := Done document |}.

(** No navigation ever succeeds. *)
Definition dead_page : Page :=
  {| goto_outcome := fun _ => Failed name_not_resolved;
     waitForLoadState_outcome := Done tt;
     evaluate_outcome := Done document |}.

Definition healthy : Chromium := session loaded_page.
Definition never_idle : Chromium := session busy_page.
Definition flaky : Chromium := session flaky_page.
Definition unreachable : Chromium := session dead_page.

(** The browser cannot be launched; the error happens to be the one
    [dead_page] navigations fail with. *)
Definition no_browser : Chromium :=
  {| launch_outcome := Failed name_not_resolved |}.

(** The browser fails to close. *)
Definition leaky : Chromium :=
  {| launch_outcome :=
       Done {| newContext_outcome :=
                   Done {| newPage_outcome := Done loaded_page |};
                 close_outcome := Failed target_closed |} |}.

Definition expected : PageResponse :=
  {| pr_title := lit "Example";
     pr_metaDescription := lit "A test site";
     pr_h1 := lit "Welcome";
     pr_status := 200 |}.

End Examples.

(* ================================================================= *)
(** ** The client page *)

(** The form of the first document of [src/app/page.tsx]: its state,
    [handlePrefill], [handleSubmit] and the conditions under which the
    three panels of the view are rendered.  One run of a handler is
    modelled at a time, the calls of the state setters applied in the
    order they are made. *)
Module Client.

Definition CLIENT_TIMEOUT_MS : Z := 20000.

(** What the handler can catch: the [DOMException] named [AbortError]
  that an aborted [fetch] rejects with, any other [Error] with its
  message, or a value that is not an [Error]. *)
Inductive rejection : Type :=
| AbortError
| ErrorWith (message : jsstring)
| NotAnError.

(** What the handler does to the outside, in order. *)
Inductive client_event : Type :=
| PreventDefault
| SetTimeout (ms : Z)           (* window.setTimeout(abort, ms) *)
| Fetch (request : jsstring)    (* fetch(request, { method: GET, signal }) *)
| ClearTimeout.

Section Page.

(** The platform: the URL parser; [encodeURIComponent], which returns
the encoded text or throws (a [URIError], on a lone surrogate); and
of a JSON value other than [null] what the page observes of it: its
property [error] ([None] when nullish; else the message [new Error]
makes of it) and whether the value is truthy. *)
Variable new_URL : jsstring -> option URL.
Variable encodeURIComponent : jsstring -> jsstring + rejection.
Variable json : Type.
Variable error_of : json -> option jsstring.
Variable truthy : json -> bool.

(** [response.json()]; the data [None] is the JSON value [null]. *)
Inductive json_reply : Type :=
| Parsed (data : option json)
| JsonRejects (err : rejection).

(** [data?.error] *)
Definition data_error (data : option json) : option jsstring :=
match data with
| Some value => error_of value
| None => None
end.

(** [fetch(...)]: a response with its [ok] flag and body, or a
rejection. *)
Inductive fetch_reply : Type :=
| Responds (ok : bool) (body : json_reply)
| FetchRejects (err : rejection).

(** The [isValidHttpUrl] of the page (the same text as the route's). *)
Definition isValidHttpUrl (value : jsstring) : bool :=
match new_URL value with
| Some parsed =>
  existsb (JsString.eqb (protocol parsed)) [lit "http:"; lit "https:"]
| None => false
end.

(** The five [useState] cells of [Home]; [None] is [null]. *)
Record page_state : Type := {
st_url : jsstring;
st_result : option json;
st_error : option jsstring;
st_isLoading : bool;
st_completedAt : jsstring
}.

Definition setUrl (v : jsstring) (st : page_state) : page_state :=
{| st_url := v; st_result := st_result st; st_error := st_error st;
 st_isLoading := st_isLoading st; st_completedAt := st_completedAt st |}.

Definition setResult (v : option json) (st : page_state) : page_state :=
{| st_url := st_url st; st_result := v; st_error := st_error st;
 st_isLoading := st_isLoading st; st_completedAt := st_completedAt st |}.

Definition setError (v : option jsstring) (st : page_state) : page_state :=
{| st_url := st_url st; st_result := st_result st; st_error := v;
 st_isLoading := st_isLoading st; st_completedAt := st_completedAt st |}.

Definition setIsLoading (v : bool) (st : page_state) : page_state :=
{| st_url := st_url st; st_result := st_result st; st_error := st_error st;
 st_isLoading := v; st_completedAt := st_completedAt st |}.

Definition setCompletedAt (v : jsstring) (st : page_state) : page_state :=
{| st_url := st_url st; st_result := st_result st; st_error := st_error st;
 st_isLoading := st_isLoading st; st_completedAt := v |}.

(** [setUrl(candidate); setError(null); setResult(null);] *)
Definition handlePrefill (candidate : jsstring) (st : page_state)
: page_state :=
setResult None (setError None (setUrl candidate st)).

(** The [try] block of [handleSubmit]: the state it leaves, or what it
throws.  [now] is [new Date().toLocaleTimeString()]. *)
Definition submit_try (fetch : jsstring -> fetch_reply) (now : jsstring)
(trimmed : jsstring) (st : page_state) : page_state + rejection :=
match encodeURIComponent trimmed with
| inr err => inr err
| inl encoded =>
  match fetch (lit "/api/scrape?url=" ++ encoded) with
  | FetchRejects err => inr err
  | Responds ok (JsonRejects err) => inr err
  | Responds ok (Parsed data) =>
      if negb ok
      then inr (ErrorWith (or_default (data_error data)
                                      (lit "Unable to complete scrape")))
      else inl (setCompletedAt now (setResult data st))
  end
end.

(** The calls made inside the [try] block: the request, unless the
encoding of its query threw. *)
Definition submit_requests (trimmed : jsstring) : list client_event :=
match encodeURIComponent trimmed with
| inr _ => []
| inl encoded => [Fetch (lit "/api/scrape?url=" ++ encoded)]
end.

(** The [catch] block. *)
Definition submit_catch (err : rejection) (st : page_state) : page_state :=
match err with
| AbortError =>
  setError (Some (lit "Client timeout reached. Please try again.")) st
| ErrorWith message => setError (Some message) st
| NotAnError => setError (Some (lit "Unexpected error occurred.")) st
end.

(** [handleSubmit]: the state it leaves and what it did. *)
Definition handleSubmit (fetch : jsstring -> fetch_reply) (now : jsstring)
(st : page_state) : page_state * list client_event :=
let trimmed := trim (st_url st) in
if negb (isValidHttpUrl trimmed) then
(setResult None
   (setError (Some (lit "Please enter a valid http(s) URL.")) st),
 [PreventDefault])
else
let st1 := setResult None (setError None (setIsLoading true st)) in
let st2 :=
  match submit_try fetch now trimmed st1 with
  | inl done => done
  | inr err => submit_catch err st1
  end in
(setIsLoading false st2,
 [PreventDefault; SetTimeout CLIENT_TIMEOUT_MS]
 ++ submit_requests trimmed ++ [ClearTimeout]).

(** [{error && (...)}]: [null] and the empty string are falsy. *)
Definition shows_error (st : page_state) : bool :=
match st_error st with
| Some (_ :: _) => true
| _ => false
end.

(** [{result && (...)}] *)
Definition shows_result (st : page_state) : bool :=
match st_result st with
| Some data => truthy data
| None => false
end.

(** [{!result && !error && !isLoading && (...)}] *)
Definition shows_placeholder (st : page_state) : bool :=
negb (shows_result st) && negb (shows_error st) && negb (st_isLoading st).

End Page.

End Client.

(* ================================================================= *)
(** ** Further notions used in the statements *)

Definition is_browser_call (e : event) : bool :=
  match e with
  | ConsoleLog _ | ConsoleError _ => false
  | _ => true
  end.

(** The calls of the browser among [evs]. *)
Definition browser_calls (evs : list event) : list event :=
  filter is_browser_call evs.

(** What [n] retries add to the trace, the first of them after attempt
    number [first] failed: each logs its line and navigates again. *)
Fixpoint retry_events (url : jsstring) (first : Z) (n : nat) : list event :=
  match n with
  | O => []
  | S m =>
      ConsoleLog (RetryingLine first)
      :: Goto url NAVIGATION_TIMEOUT_MS
      :: retry_events url (first + 1) m
  end.

(** The guard is in one of the four states its callbacks can lead to. *)
Definition guard_consistent {T} (g : guard T) : Prop :=
  match timer g, operation g with
  | Armed, None => outer g = None
  | Cleared, Some c => outer g = Some c
  | Fired, _ => outer g = Some (Throw RequestTimeoutError_new)
  | Armed, Some _ | Cleared, None => False
  end.

(** [e] was thrown by one of the navigations of [page] numbered from
    [lo] up to, but not including, [hi]. *)
Definition thrown_between (page : Page) (lo hi : nat) (e : thrown) : Prop :=
  exists n v,
    (lo <= n < hi)%nat /\ goto_outcome page n = Failed v /\ e = Raised v.

(** For examples of the client page: the bodies the route sends as the
    JSON values, and an encoder that is [encodeURIComponent] on ASCII
    text and takes no other. *)
Module ClientExamples.

Definition error_of (data : json_body) : option jsstring :=
match data with
| ErrorBody message => Some message
| PayloadBody _ => None
end.

Definition truthy (data : json_body) : bool := true.

Definition unreserved (c : code_unit) : bool :=
((65 <=? c) && (c <=? 90) || (97 <=? c) && (c <=? 122)
 || (48 <=? c) && (c <=? 57)
 || existsb (N.eqb c) [45; 95; 46; 33; 126; 42; 39; 40; 41])%N.

Definition hex_digit (n : N) : code_unit :=
(if n <? 10 then 48 + n else 55 + n)%N.

Fixpoint encode (component : jsstring) : jsstring + Client.rejection :=
match component with
| [] => inl []
| c :: rest =>
    if (128 <=? c)%N then inr (Client.ErrorWith (lit "URI malformed"))
    else
      match encode rest with
      | inr err => inr err
      | inl encoded =>
          inl (if unreserved c then c :: encoded
               else 37%N :: hex_digit (c / 16) :: hex_digit (c mod 16)
                    :: encoded)
      end
end.

(** The server answers 504 with the body of [timeoutResponse]. *)
Definition times_out (request : jsstring) : Client.fetch_reply json_body :=
Client.Responds false (Client.Parsed (Some (body timeoutResponse))).

Definition answers (request : jsstring) : Client.fetch_reply json_body :=
Client.Responds true (Client.Parsed (Some (PayloadBody Examples.expected))).

Definition typed (text : jsstring) : Client.page_state json_body :=
{| Client.st_url := text;
   Client.st_result := None;
   Client.st_error := None;
   Client.st_isLoading := false;
   Client.st_completedAt := [] |}.

(** The state a failed scrape left behind, with another URL typed. *)
Definition stale (text : jsstring) : Client.page_state json_body :=
{| Client.st_url := text;
   Client.st_result := Some (PayloadBody Examples.expected);
   Client.st_error := Some (lit "Timeout");
   Client.st_isLoading := false;
   Client.st_completedAt := [] |}.

End ClientExamples.
(* ================================================================= *)
(** * Properties *)

Unset Implicit Arguments.

(* ================================================================= *)
(** ** Equality of strings *)

Lemma eqb_eq (a : jsstring) : forall b, JsString.eqb a b = true <-> a = b.
Proof.
  induction a as [|x a IH]; intros [|y b]; simpl; split;
    try discriminate; try reflexivity.
  - intros [Hxy Hab]%andb_true_iff.
    apply N.eqb_eq in Hxy. apply IH in Hab. congruence.
  - intros [= -> ->]. rewrite N.eqb_refl. now apply IH.
Qed.

Lemma eqb_neq (a b : jsstring) : a <> b -> JsString.eqb a b = false.
Proof.
  intros Hne. destruct (JsString.eqb a b) eqn:Heq; [|reflexivity].
  now apply eqb_eq in Heq.
Qed.

(* ================================================================= *)
(** ** [sanitize] computes the normal form *)

Module NormalFacts.
Import Normal.

Lemma fields_not_nil (s : jsstring) : fields s <> [].
Proof.
  destruct s as [|c r]; simpl; [discriminate|].
  destruct (is_whitespace c); [discriminate|].
  destruct (fields r); discriminate.
Qed.

Lemma unwords_cons (w : jsstring) (ws : list jsstring) :
  unwords (w :: ws)
  = w ++ match ws with [] => [] | _ :: _ => SPACE :: unwords ws end.
Proof. reflexivity. Qed.

Lemma unwords_nil_inv (ws : list jsstring) :
  Forall (fun w => nonempty w = true) ws -> unwords ws = [] -> ws = [].
Proof.
  destruct ws as [|w ws]; [reflexivity|].
  intros Hne. inversion Hne as [|w' ws' Hw _]; subst.
  destruct w; [discriminate Hw|]. discriminate.
Qed.

Lemma words_nonempty (s : jsstring) :
  Forall (fun w => nonempty w = true) (words s).
Proof.
  unfold words. apply Forall_forall. intros w Hin.
  apply filter_In in Hin. tauto.
Qed.

Lemma trimEnd_cons_keep (c : code_unit) (s : jsstring) :
  is_whitespace c = false -> trimEnd (c :: s) = c :: trimEnd s.
Proof. intros Hc. simpl. rewrite Hc. destruct (trimEnd s); reflexivity. Qed.

Lemma trimEnd_cons_space (c : code_unit) (s : jsstring) :
  is_whitespace c = true ->
  trimEnd (c :: s)
  = match trimEnd s with [] => [] | _ :: _ => c :: trimEnd s end.
Proof. intros Hc. simpl. rewrite Hc. destruct (trimEnd s); reflexivity. Qed.

Lemma space_is_whitespace : is_whitespace SPACE = true.
Proof. reflexivity. Qed.

(** The heart of the matter: what [trimEnd] leaves of the replaced
    string, in terms of the fields of the input. *)
Lemma trimEnd_replace_runs (s : jsstring) :
  forall f fs, fields s = f :: fs ->
    trimEnd (replace_runs false s)
    = f ++ match filter nonempty fs with
           | [] => []
           | _ :: _ => SPACE :: unwords (filter nonempty fs)
           end
    /\ trimEnd (replace_runs true s) = unwords (filter nonempty (f :: fs)).
Proof.
  induction s as [|c r IH]; intros f fs Hf.
  - simpl in Hf. injection Hf as <- <-. split; reflexivity.
  - simpl in Hf. simpl replace_runs.
    destruct (is_whitespace c) eqn:Hc.
    + injection Hf as <- <-.
      destruct (fields r) as [|f' fs'] eqn:Hr; [now apply fields_not_nil in Hr|].
      destruct (IH f' fs' eq_refl) as [_ IHt].
      split.
      * rewrite trimEnd_cons_space by apply space_is_whitespace.
        rewrite IHt. change ([] ++ ?x) with x.
        assert (Hne : Forall (fun w => nonempty w = true)
                             (filter nonempty (f' :: fs'))).
        { apply Forall_forall. intros x Hx. apply filter_In in Hx. tauto. }
        destruct (filter nonempty (f' :: fs')) as [|w ws]; [reflexivity|].
        destruct (unwords (w :: ws)) eqn:Hu; [|reflexivity].
        apply unwords_nil_inv in Hu; [discriminate|exact Hne].
      * rewrite IHt. reflexivity.
    + destruct (fields r) as [|f' fs'] eqn:Hr; [now apply fields_not_nil in Hr|].
      injection Hf as <- <-.
      destruct (IH f' fs' eq_refl) as [IHf _].
      rewrite trimEnd_cons_keep by exact Hc. rewrite IHf.
      split; [reflexivity|].
      simpl filter. simpl unwords. reflexivity.
Qed.

Lemma replace_runs_true_no_leading (s : jsstring) :
  no_leading_whitespace (replace_runs true s).
Proof.
  induction s as [|c r IH]; simpl; [exact I|].
  destruct (is_whitespace c) eqn:Hc; [exact IH|exact Hc].
Qed.

Lemma trimStart_no_leading (s : jsstring) :
  no_leading_whitespace s -> trimStart s = s.
Proof. destruct s as [|c r]; simpl; [reflexivity|]. now intros ->. Qed.

Lemma trimStart_replace_runs (s : jsstring) :
  trimStart (replace_runs false s) = replace_runs true s.
Proof.
  destruct s as [|c r]; [reflexivity|]. simpl.
  destruct (is_whitespace c) eqn:Hc.
  - simpl. apply trimStart_no_leading, replace_runs_true_no_leading.
  - simpl. now rewrite Hc.
Qed.

Lemma sanitize_unwords (s : jsstring) : sanitize (Some s) = unwords (words s).
Proof.
  unfold sanitize, trim, replace_whitespace, words.
  rewrite trimStart_replace_runs.
  destruct (fields s) as [|f fs] eqn:Hf; [now apply fields_not_nil in Hf|].
  now destruct (trimEnd_replace_runs s f fs Hf).
Qed.

Lemma sanitize_normalize (v : option jsstring) : sanitize v = normalize v.
Proof. destruct v as [s|]; [apply sanitize_unwords|reflexivity]. Qed.

Lemma fields_clean (s : jsstring) : Forall clean (fields s).
Proof.
  induction s as [|c r IH]; simpl.
  - repeat constructor.
  - destruct (is_whitespace c) eqn:Hc.
    + constructor; [constructor|exact IH].
    + destruct (fields r) as [|f fs].
      * repeat constructor. exact Hc.
      * inversion IH; subst. constructor; [constructor|]; assumption.
Qed.

Lemma words_clean (s : jsstring) : Forall clean (words s).
Proof.
  unfold words. apply Forall_forall. intros w Hin.
  apply filter_In in Hin. destruct Hin as [Hin _].
  revert w Hin. apply Forall_forall, fields_clean.
Qed.

Section Joined.
Variable ws : list jsstring.
Hypothesis ws_nonempty : Forall (fun w => nonempty w = true) ws.
Hypothesis ws_clean : Forall clean ws.

Lemma unwords_no_leading : no_leading_whitespace (unwords ws).
Proof.
  destruct ws as [|w rest]; [exact I|].
  inversion ws_nonempty as [|? ? Hw _]; subst.
  inversion ws_clean as [|? ? Hc _]; subst.
  destruct w as [|c w]; [discriminate Hw|].
  simpl. now inversion Hc.
Qed.
End Joined.

Lemma no_trailing_app (a b : jsstring) :
  b <> [] -> no_trailing_whitespace b -> no_trailing_whitespace (a ++ b).
Proof.
  unfold no_trailing_whitespace. rewrite rev_app_distr.
  intros Hb. destruct (rev b) as [|c r] eqn:Hr.
  - apply (f_equal (@rev _)) in Hr. rewrite rev_involutive in Hr.
    now destruct Hb.
  - trivial.
Qed.

Lemma clean_no_trailing (w : jsstring) : clean w -> no_trailing_whitespace w.
Proof.
  unfold no_trailing_whitespace, clean. intros Hw.
  destruct (rev w) as [|c r] eqn:Hr; [exact I|]. simpl.
  rewrite Forall_forall in Hw. apply Hw, in_rev. rewrite Hr. now left.
Qed.

Lemma unwords_no_trailing (ws : list jsstring) :
  Forall (fun w => nonempty w = true) ws -> Forall clean ws ->
  no_trailing_whitespace (unwords ws).
Proof.
  induction ws as [|w rest IH]; intros Hne Hcl; [exact I|].
  inversion Hne as [|? ? Hw Hne']; subst.
  inversion Hcl as [|? ? Hc Hcl']; subst.
  rewrite unwords_cons. destruct rest as [|w' rest'].
  - rewrite app_nil_r. now apply clean_no_trailing.
  - apply no_trailing_app.
    + discriminate.
    + change (SPACE :: unwords (w' :: rest'))
        with ([SPACE] ++ unwords (w' :: rest')).
      apply no_trailing_app; [|now apply IH].
      intros Hu. apply unwords_nil_inv in Hu; [discriminate|exact Hne'].
Qed.

Lemma clean_app_no_doubled (w t : jsstring) :
  clean w -> no_doubled_whitespace t -> no_doubled_whitespace (w ++ t).
Proof.
  induction w as [|c w IH]; intros Hw Ht; [exact Ht|].
  inversion Hw as [|? ? Hc Hw']; subst. simpl. split.
  - destruct (w ++ t); [exact I|]. now rewrite Hc.
  - now apply IH.
Qed.

Lemma unwords_no_doubled (ws : list jsstring) :
  Forall (fun w => nonempty w = true) ws -> Forall clean ws ->
  no_doubled_whitespace (unwords ws).
Proof.
  induction ws as [|w rest IH]; intros Hne Hcl; [exact I|].
  inversion Hne as [|? ? Hw Hne']; subst.
  inversion Hcl as [|? ? Hc Hcl']; subst.
  rewrite unwords_cons. apply clean_app_no_doubled; [exact Hc|].
  destruct rest as [|w' rest']; [exact I|].
  split; [|now apply IH].
  pose proof (unwords_no_leading _ Hne' Hcl') as Hl.
  destruct (unwords (w' :: rest')) as [|d u]; [exact I|].
  simpl in Hl. rewrite Hl. apply andb_false_r.
Qed.

Lemma unwords_only_plain_spaces (ws : list jsstring) :
  Forall clean ws -> only_plain_spaces (unwords ws).
Proof.
  unfold only_plain_spaces.
  induction ws as [|w rest IH]; intros Hcl; [constructor|].
  inversion Hcl as [|? ? Hc Hcl']; subst.
  rewrite unwords_cons. apply Forall_app. split.
  - revert Hc. apply Forall_impl. intros c Hf Ht. congruence.
  - destruct rest as [|w' rest']; [constructor|].
    constructor; [reflexivity|now apply IH].
Qed.

Lemma sanitize_normalized (v : option jsstring) : normalized (sanitize v).
Proof.
  rewrite sanitize_normalize. destruct v as [s|]; simpl.
  - pose proof (words_nonempty s) as Hne.
    pose proof (words_clean s) as Hcl.
    repeat split.
    + now apply unwords_no_leading.
    + now apply unwords_no_trailing.
    + now apply unwords_no_doubled.
    + now apply unwords_only_plain_spaces.
  - repeat split; constructor.
Qed.

Example words_of_padded_text :
  words (lit "  A   test site  ") = [lit "A"; lit "test"; lit "site"].
Proof. reflexivity. Qed.

(** A no-break space, a tab, a line feed and a line separator are
    whitespace as much as the plain space. *)
Example sanitize_unicode_whitespace :
  sanitize (Some [160; 65; 9; 10; 66; 8232]%N) = [65; 32; 66]%N.
Proof. reflexivity. Qed.

End NormalFacts.

(* ================================================================= *)
(** ** Comparisons with a whole number *)

Module NumberFacts.

Lemma le_whole attempts k a :
  whole attempts k -> JsNumber.le (of_Z a) attempts = (a <=? k)%Z.
Proof.
  destruct attempts as [| | |q]; simpl; try contradiction. intros Hq.
  apply eq_true_iff_eq. rewrite Qle_bool_iff, Hq, <- Zle_Qle.
  symmetry. apply Z.leb_le.
Qed.

Lemma lt_whole attempts k a :
  whole attempts k -> JsNumber.lt (of_Z a) attempts = (a <? k)%Z.
Proof.
  destruct attempts as [| | |q]; simpl; try contradiction. intros Hq.
  rewrite Z.ltb_antisym. f_equal.
  apply eq_true_iff_eq. rewrite Qle_bool_iff, Hq, <- Zle_Qle.
  symmetry. apply Z.leb_le.
Qed.

Lemma strict_eq_whole attempts k a :
  whole attempts k -> strict_eq (of_Z a) attempts = (a =? k)%Z.
Proof.
  destruct attempts as [| | |q]; simpl; try contradiction. intros Hq.
  apply eq_true_iff_eq. rewrite Qeq_bool_iff, Hq, inject_Z_injective.
  symmetry. apply Z.eqb_eq.
Qed.

Lemma whole_of_Z k : whole (of_Z k) k.
Proof. simpl. reflexivity. Qed.

(** [attempts < 1] leaves no room for a first attempt. *)
Lemma lt_one_not_le attempts :
  JsNumber.lt attempts (of_Z 1) = true ->
  JsNumber.le (of_Z 1) attempts = false.
Proof.
  destruct attempts as [| | |q]; simpl; try discriminate; try reflexivity.
  now intros ->%negb_true_iff.
Qed.

Lemma incr_le_whole a k :
  (a <= k)%Z -> a <> k -> (a <= MAX_EXACT)%Z ->
  (incr a <= k)%Z /\ (incr a <= MAX_EXACT)%Z
  /\ ((k <= MAX_EXACT)%Z -> incr a = (a + 1)%Z).
Proof.
  intros Hak Hne Hmax. unfold incr.
  destruct (Z.ltb_spec a MAX_EXACT); lia.
Qed.

End NumberFacts.
Import NumberFacts.

(* ================================================================= *)
(** ** The deadline guard *)

Module DeadlineFacts.
Section Facts.
Variable T : Type.
Implicit Types (g : guard T) (ev : guard_event T) (c : completion T).

Lemma run_cons g ev evs : run g (ev :: evs) = run (deliver g ev) evs.
Proof. reflexivity. Qed.

Lemma deliver_keeps_outer g ev c :
  outer g = Some c -> outer (deliver g ev) = Some c.
Proof.
  intros Hg. destruct ev as [c'|]; simpl.
  - destruct (operation g); [exact Hg|]. simpl. now rewrite Hg.
  - destruct (timer g); try exact Hg. simpl. now rewrite Hg.
Qed.

Lemma run_keeps_outer evs : forall g c,
  outer g = Some c -> outer (run g evs) = Some c.
Proof.
  induction evs as [|ev evs IH]; intros g c Hg; [exact Hg|].
  simpl. apply IH. now apply deliver_keeps_outer.
Qed.

Lemma deliver_keeps_timer g ev :
  timer g <> Armed -> timer (deliver g ev) = timer g.
Proof.
  intros Hg. destruct ev as [c'|]; simpl.
  - destruct (operation g); [reflexivity|]. simpl.
    destruct (timer g) eqn:Ht; simpl; congruence.
  - destruct (timer g) eqn:Ht; simpl; congruence.
Qed.

Lemma run_keeps_timer evs : forall g,
  timer g <> Armed -> timer (run g evs) = timer g.
Proof.
  induction evs as [|ev evs IH]; intros g Hg; [reflexivity|].
  simpl. rewrite IH; rewrite deliver_keeps_timer; auto.
Qed.
End Facts.

Lemma await_operation_first {T} (op : M T) timeout s :
  await_withTimeout op timeout OperationFirst s = op s.
Proof.
  unfold await_withTimeout. destruct (op s) as [[c s']|]; reflexivity.
Qed.

Lemma await_timer_first {T} (op : M T) timeout s c s' :
  op s = Some (c, s') ->
  await_withTimeout op timeout TimerFirst s
  = Some (Throw RequestTimeoutError_new, s').
Proof. unfold await_withTimeout. now intros ->. Qed.

End DeadlineFacts.
Import DeadlineFacts.

(* ================================================================= *)
(** ** The retry loop *)

Module RetryFacts.

Lemma after_after s evs1 n1 evs2 n2 :
  after (after s evs1 n1) evs2 n2 = after s (evs1 ++ evs2) (n2 + n1).
Proof.
  unfold after; simpl. f_equal; [now rewrite app_assoc | lia].
Qed.

Lemma page_goto_eq page url timeout s :
  page_goto page url timeout s
  = Some (match goto_outcome page (navigations s) with
          | Done r => Normal r
          | Failed v => Throw (Raised v)
          end, after s [Goto url timeout] 1).
Proof.
  unfold page_goto, bind, get_navigations, emit, count_navigation, settle.
  simpl. destruct (goto_outcome page (navigations s)); reflexivity.
Qed.

Lemma console_log_eq line s :
  console_log line s = Some (Normal tt, after s [ConsoleLog line] 0).
Proof. reflexivity. Qed.

(** One turn of the loop whose condition holds. *)
Lemma retry_loop_step fuel page url attempts attempt lastError s :
  JsNumber.le (of_Z attempt) attempts = true ->
  retry_loop (S fuel) page url attempts attempt lastError s
  = match goto_outcome page (navigations s) with
    | Done r => Some (Normal (ReturnedInLoop r),
                      after s [Goto url NAVIGATION_TIMEOUT_MS] 1)
    | Failed v =>
        let error := Raised v in
        let s' :=
          after s (Goto url NAVIGATION_TIMEOUT_MS ::
                   if JsNumber.lt (of_Z attempt) attempts
                   then [ConsoleLog (RetryingLine attempt)] else []) 1 in
        if strict_eq (of_Z attempt) attempts
        then Some (Normal (ThrownInLoop error), s')
        else retry_loop fuel page url attempts (incr attempt)
                        (Some error) s'
    end.
Proof.
  intros Hle. cbn [retry_loop]. rewrite Hle.
  unfold try_catch, bind at 1. rewrite page_goto_eq.
  destruct (goto_outcome page (navigations s)) as [r|error]; [reflexivity|].
  unfold bind, when. cbv zeta.
  destruct (JsNumber.lt (of_Z attempt) attempts).
  - rewrite console_log_eq, after_after.
    destruct (strict_eq (of_Z attempt) attempts); reflexivity.
  - unfold ret at 1.
    destruct (strict_eq (of_Z attempt) attempts); reflexivity.
Qed.

(** The loop whose condition fails. *)
Lemma retry_loop_end fuel page url attempts attempt lastError s :
  JsNumber.le (of_Z attempt) attempts = false ->
  retry_loop fuel page url attempts attempt lastError s
  = Some (Normal (LoopEnded lastError), s).
Proof.
  intros Hle. destruct fuel; cbn [retry_loop]; rewrite Hle; reflexivity.
Qed.

(** The loop for two attempts, unrolled. *)
Lemma retry_loop_two fuel page url attempts s :
  whole attempts 2 ->
  retry_loop (S (S fuel)) page url attempts 1 None s
  = match goto_outcome page (navigations s) with
    | Done r => Some (Normal (ReturnedInLoop r),
                      after s [Goto url NAVIGATION_TIMEOUT_MS] 1)
    | Failed _ =>
        Some (match goto_outcome page (S (navigations s)) with
              | Done r => Normal (ReturnedInLoop r)
              | Failed v => Normal (ThrownInLoop (Raised v))
              end,
              after s [Goto url NAVIGATION_TIMEOUT_MS;
                       ConsoleLog (RetryingLine 1);
                       Goto url NAVIGATION_TIMEOUT_MS] 2)
    end.
Proof.
  intros Hw.
  rewrite retry_loop_step by now rewrite (le_whole _ _ 1 Hw).
  destruct (goto_outcome page (navigations s)) as [r|e1]; [reflexivity|].
  rewrite (strict_eq_whole _ _ 1 Hw), (lt_whole _ _ 1 Hw).
  change (incr 1) with 2%Z. cbv beta iota zeta delta [Z.eqb Z.ltb Z.compare Pos.compare Pos.compare_cont].
  rewrite retry_loop_step by now rewrite (le_whole _ _ 2 Hw).
  change (navigations (after s _ 1)) with (S (navigations s)).
  rewrite (strict_eq_whole _ _ 2 Hw), (lt_whole _ _ 2 Hw).
  cbv beta iota zeta delta [Z.eqb Z.ltb Z.compare Pos.compare Pos.compare_cont].
  rewrite after_after.
  destruct (goto_outcome page (S (navigations s))); reflexivity.
Qed.

Lemma navigateWithRetry_two fuel page url attempts s :
  attempts = None \/ (exists a, attempts = Some a /\ whole a 2) ->
  navigateWithRetry (S (S fuel)) page url attempts s
  = match goto_outcome page (navigations s) with
    | Done r => Some (Normal r, after s [Goto url NAVIGATION_TIMEOUT_MS] 1)
    | Failed _ =>
        Some (match goto_outcome page (S (navigations s)) with
              | Done r => Normal r
              | Failed v => Throw (Raised v)
              end,
              after s [Goto url NAVIGATION_TIMEOUT_MS;
                       ConsoleLog (RetryingLine 1);
                       Goto url NAVIGATION_TIMEOUT_MS] 2)
    end.
Proof.
  intros Ha. unfold navigateWithRetry, bind.
  rewrite retry_loop_two.
  - destruct (goto_outcome page (navigations s)); [reflexivity|].
    destruct (goto_outcome page (S (navigations s))); reflexivity.
  - destruct Ha as [->|(a & -> & Ha)]; [apply whole_of_Z|exact Ha].
Qed.

(** The loop leaves the variable [instance] of the extractor alone. *)
Lemma retry_loop_instance fuel page url attempts :
  forall attempt lastError s c s',
    retry_loop fuel page url attempts attempt lastError s = Some (c, s') ->
    instance s' = instance s.
Proof.
  induction fuel as [|fuel IH]; intros attempt lastError s c s' Hrun;
    destruct (JsNumber.le (of_Z attempt) attempts) eqn:Hle;
    try (rewrite retry_loop_end in Hrun by exact Hle;
         now injection Hrun as _ <-).
  - cbn [retry_loop] in Hrun. rewrite Hle in Hrun. discriminate Hrun.
  - rewrite retry_loop_step in Hrun by exact Hle.
    destruct (goto_outcome page (navigations s)).
    + now injection Hrun as _ <-.
    + cbv zeta in Hrun.
      destruct (strict_eq (of_Z attempt) attempts).
      * now injection Hrun as _ <-.
      * now apply IH in Hrun.
Qed.

Lemma navigateWithRetry_instance fuel page url attempts s c s' :
  navigateWithRetry fuel page url attempts s = Some (c, s') ->
  instance s' = instance s.
Proof.
  unfold navigateWithRetry, bind.
  destruct (retry_loop fuel page url _ 1 None s) as [[[exit|e] s1]|] eqn:Hloop;
    [|intros [= _ <-]; now apply retry_loop_instance in Hloop|discriminate].
  apply retry_loop_instance in Hloop.
  destruct exit; intros [= _ <-]; exact Hloop.
Qed.

(** With [attempts = Infinity] and a page that never loads the loop
    has no end: no amount of fuel yields a result. *)
Lemma retry_loop_without_bound fuel page url :
  (forall n, exists v, goto_outcome page n = Failed v) ->
  forall attempt lastError s,
    retry_loop fuel page url PosInfinity attempt lastError s = None.
Proof.
  intros Hdead.
  induction fuel as [|fuel IH]; intros attempt lastError s;
    [reflexivity|].
  rewrite retry_loop_step by reflexivity.
  destruct (Hdead (navigations s)) as [v ->]. apply IH.
Qed.

Section WholeAttempts.
Variables (page : Page) (url : jsstring) (attempts : number) (k : Z).
Hypothesis attempts_whole : whole attempts k.

(** Started at or below [k], the loop is left from inside: by the
    [return] with the result of the last navigation, or by the
    [throw] with its error, which then was attempt number [k]. *)
Lemma retry_loop_whole fuel :
  forall a lastError s c s',
    (a <= k)%Z -> (a <= MAX_EXACT)%Z ->
    retry_loop fuel page url attempts a lastError s = Some (c, s') ->
    (exists r, c = Normal (ReturnedInLoop r)
               /\ goto_outcome page (pred (navigations s')) = Done r
               /\ (navigations s < navigations s')%nat)
    \/ (exists v, c = Normal (ThrownInLoop (Raised v))
                  /\ goto_outcome page (pred (navigations s')) = Failed v
                  /\ (navigations s < navigations s')%nat
                  /\ ((k <= MAX_EXACT)%Z ->
                      Z.of_nat (navigations s')
                      = (Z.of_nat (navigations s) + (k - a + 1))%Z)).
Proof.
  induction fuel as [|fuel IH]; intros a lastError s c s' Hak Hmax Hrun.
  - cbn [retry_loop] in Hrun.
    rewrite (le_whole _ _ a attempts_whole) in Hrun.
    destruct (Z.leb_spec a k); [discriminate Hrun|lia].
  - rewrite retry_loop_step in Hrun
      by (rewrite (le_whole _ _ a attempts_whole); now apply Z.leb_le).
    destruct (goto_outcome page (navigations s)) as [r|e] eqn:Hgoto.
    + injection Hrun as <- <-. left. exists r. simpl. auto.
    + cbv zeta in Hrun.
      rewrite (strict_eq_whole _ _ a attempts_whole) in Hrun.
      destruct (Z.eqb_spec a k) as [->|Hne].
      * injection Hrun as <- <-. right. exists e. simpl.
        repeat split; auto. intros _. lia.
      * destruct (incr_le_whole _ _ Hak Hne Hmax) as (Hk' & Hmax' & Hincr).
        destruct (IH _ _ _ _ _ Hk' Hmax' Hrun)
          as [(r & -> & Hr & Hn)|(e' & -> & He & Hn & Hcount)].
        -- left. exists r. unfold after in Hn; cbn [navigations] in Hn.
           repeat split; auto. lia.
        -- right. exists e'.
           unfold after in Hn, Hcount; cbn [navigations] in Hn, Hcount.
           repeat split; auto; [lia|].
           intros Hkm. specialize (Hcount Hkm). specialize (Hincr Hkm).
           lia.
Qed.

(** Up to [2^53] attempts, as many turns as attempts are enough. *)
Lemma retry_loop_whole_terminates fuel :
  forall a lastError s,
    (a <= k)%Z -> (k <= MAX_EXACT)%Z ->
    (Z.to_nat (k - a + 1) <= fuel)%nat ->
    exists c s',
      retry_loop fuel page url attempts a lastError s = Some (c, s').
Proof.
  induction fuel as [|fuel IH]; intros a lastError s Hak Hkm Hfuel; [lia|].
  rewrite retry_loop_step
    by (rewrite (le_whole _ _ a attempts_whole); now apply Z.leb_le).
  destruct (goto_outcome page (navigations s)) as [r|e]; [eauto|].
  cbv zeta. rewrite (strict_eq_whole _ _ a attempts_whole).
  destruct (Z.eqb_spec a k) as [->|Hne]; [eauto|].
  assert (Hmax : (a <= MAX_EXACT)%Z) by lia.
  destruct (incr_le_whole _ _ Hak Hne Hmax) as (Hk' & _ & Hincr).
  apply IH; try assumption. rewrite (Hincr Hkm). lia.
Qed.
End WholeAttempts.

End RetryFacts.
Import RetryFacts.

(* ================================================================= *)
(** ** The extractor, run symbolically *)

Ltac unfold_route :=
  unfold extractPageMetadata, extract_body, release,
    chromium_launch, newContext, newPage, waitForLoadState, page_evaluate,
    browser_close, console_log, console_error,
    bind, try_catch, try_finally, emit, settle, when,
    get_instance, set_instance, get_navigations, count_navigation,
    outcome, fresh, after, with_quiescence, map_reply in *;
  unfold ret, throw in *.

Ltac simpl_route :=
  cbn beta iota zeta delta
    [trace navigations instance fst snd option_map
     launch_outcome newContext_outcome newPage_outcome close_outcome
     goto_outcome waitForLoadState_outcome evaluate_outcome].

Ltac case_outcome :=
  match goal with
  | |- context [match launch_outcome ?c with _ => _ end] =>
      destruct (launch_outcome c) eqn:?
  | |- context [match newContext_outcome ?c with _ => _ end] =>
      destruct (newContext_outcome c) eqn:?
  | |- context [match newPage_outcome ?c with _ => _ end] =>
      destruct (newPage_outcome c) eqn:?
  | |- context [match goto_outcome ?p ?n with _ => _ end] =>
      destruct (goto_outcome p n) eqn:?
  | |- context [match waitForLoadState_outcome ?c with _ => _ end] =>
      destruct (waitForLoadState_outcome c) eqn:?
  | |- context [match evaluate_outcome ?c with _ => _ end] =>
      destruct (evaluate_outcome c) eqn:?
  | |- context [match close_outcome ?c with _ => _ end] =>
      destruct (close_outcome c) eqn:?
  end.

(** Runs the extractor with at least two turns of fuel, splitting on
    the outcome of every call of the browser. *)
Ltac run_route :=
  unfold_route; simpl_route;
  repeat first
    [ rewrite navigateWithRetry_two by (left; reflexivity);
      unfold after; simpl_route
    | case_outcome; simpl_route ].

Module ExtractFacts.

(** The document built from a list of elements shows them. *)
Lemma document_shows heading nodes :
  Dom.shows (Dom.document heading nodes) nodes.
Proof.
  intros text sel Hparse. cbn [Dom.document querySelector].
  unfold Dom.query. now rewrite Hparse.
Qed.

(** The record built from what the callback of [evaluate] reads, in
    terms of the elements of the document. *)
Lemma page_response_elements document nodes response :
  Dom.shows document nodes ->
  {| pr_title :=
       match title document with
       | Some t => sanitize (Some t)
       | None => []
       end;
     pr_metaDescription :=
       match Dom.attribute_of_first
               (Dom.AttributeSelector "meta" "name" "description")
               "content" nodes with
       | Some description => sanitize (Some description)
       | None =>
           match Dom.attribute_of_first
                   (Dom.AttributeSelector "meta" "property"
                                          "og:description")
                   "content" nodes with
           | Some description => sanitize (Some description)
           | None => []
           end
       end;
     pr_h1 :=
       match Dom.first_match (Dom.TypeSelector "h1") nodes with
       | Some h1 => sanitize (Some (Dom.text h1))
       | None => []
       end;
     pr_status :=
       match response with
       | Some r => status r
       | None => 200%Z
       end |}
  = page_response (read_fields document) response.
Proof.
  intros Hshows.
  unfold page_response, read_fields, status_of, text_of, attribute_of.
  cbn [data_title data_metaDescription data_h1].
  rewrite (Hshows meta_description_selector _ eq_refl).
  rewrite (Hshows og_description_selector _ eq_refl).
  rewrite (Hshows "h1"%string _ eq_refl).
  unfold Dom.attribute_of_first.
  f_equal.
  - now destruct (title document).
  - destruct (Dom.first_match _ nodes) as [e1|]; cbn;
      [destruct (Dom.attribute "content" e1); [reflexivity|]|];
      (destruct (Dom.first_match _ nodes) as [e2|]; cbn;
       [now destruct (Dom.attribute "content" e2)|reflexivity]).
  - now destruct (Dom.first_match _ nodes).
  - now destruct response.
Qed.

Lemma closes_app evs1 evs2 : closes (evs1 ++ evs2) = closes evs1 + closes evs2.
Proof. unfold closes. now rewrite filter_app, length_app. Qed.

(** With two turns of fuel the extractor ends; it never throws the
    timeout error of the route, and what the browser throws while the
    session is set up or on the last navigation is what it throws. *)
Lemma extract_ends chromium fuel url s :
  exists c s',
    extractPageMetadata chromium (S (S fuel)) url s = Some (c, s')
    /\ (forall e, c = Throw e -> instanceof_RequestTimeoutError e = false)
    /\ (forall v, launch_outcome chromium = Failed v -> c = Throw (Raised v))
    /\ (forall browser v,
           launch_outcome chromium = Done browser ->
           newContext_outcome browser = Failed v -> c = Throw (Raised v))
    /\ (forall browser context v,
           launch_outcome chromium = Done browser ->
           newContext_outcome browser = Done context ->
           newPage_outcome context = Failed v -> c = Throw (Raised v))
    /\ (forall browser context page v1 v2,
           launch_outcome chromium = Done browser ->
           newContext_outcome browser = Done context ->
           newPage_outcome context = Done page ->
           goto_outcome page (navigations s) = Failed v1 ->
           goto_outcome page (S (navigations s)) = Failed v2 ->
           c = Throw (Raised v2)).
Proof.
  run_route.
  all: do 2 eexists; split; [reflexivity|].
  all: repeat split; intros; try discriminate; try congruence.
  all: match goal with
       | H : Throw _ = Throw _ |- _ => now injection H as <-
       end.
Qed.


(** The handler, once the URL is accepted and the extraction has ended
    as [c]. *)
Lemma GET_after_extraction new_URL chromium fuel url order s c s1 :
  falsy (Some url) = false ->
  isValidHttpUrl new_URL url = true ->
  extractPageMetadata chromium fuel url s = Some (c, s1) ->
  (forall e, c = Throw e -> instanceof_RequestTimeoutError e = false) ->
  outcome (GET new_URL chromium fuel (Some url) order s)
  = Some (Normal
            match order with
            | TimerFirst => timeoutResponse
            | OperationFirst =>
                match c with
                | Normal payload =>
                    {| body := PayloadBody payload;
                       http_status := 200;
                       cache_control := Some success_cache_control |}
                | Throw _ => failureResponse
                end
            end).
Proof.
  intros Htruthy Hvalid Hrun Hforeign.
  unfold GET. rewrite Htruthy. cbn [or_default orb]. rewrite Hvalid.
  cbn [negb]. unfold try_catch, bind at 1.
  destruct order.
  - rewrite await_operation_first, Hrun.
    destruct c as [payload|e]; [reflexivity|].
    rewrite (Hforeign e eq_refl). reflexivity.
  - rewrite (await_timer_first _ _ _ _ _ Hrun). reflexivity.
Qed.

End ExtractFacts.
Import ExtractFacts.

(* ================================================================= *)
(** ** The claims *)

(** C1.  The deadline guard [withTimeout(promise, timeout)].  If the
    operation settles first, with a value or an error, the promise of
    the guard settles the same way and the timer is cleared, whatever
    the event loop delivers later.  If the timer fires first, the
    promise of the guard is rejected with a [RequestTimeoutError], and
    nothing delivered later changes that.  The guard does not touch the
    operation: after the timer has fired the operation is still pending,
    and its later settlement is still delivered to it. *)
Theorem withTimeout_forwards_or_times_out
  (T : Type) (timeout : Z) (c : completion T) (later : list (guard_event T)) :
  let operation_first :=
    run (withTimeout T timeout) (OperationSettles c :: later) in
  let timer_first := run (withTimeout T timeout) (TimerElapses :: later) in
  (outer operation_first = Some c /\ timer operation_first = Cleared)
  /\ (outer timer_first = Some (Throw RequestTimeoutError_new)
      /\ timer timer_first = Fired
      /\ instanceof_RequestTimeoutError RequestTimeoutError_new = true)
  /\ (operation (run (withTimeout T timeout) [TimerElapses]) = None
      /\ operation (run (withTimeout T timeout)
                        [TimerElapses; OperationSettles c]) = Some c
      /\ outer (run (withTimeout T timeout)
                    [TimerElapses; OperationSettles c])
         = Some (Throw RequestTimeoutError_new)).
Proof.
  cbv zeta. rewrite !run_cons. repeat split.
  - apply run_keeps_outer. reflexivity.
  - rewrite run_keeps_timer; [reflexivity|discriminate].
  - apply run_keeps_outer. reflexivity.
  - rewrite run_keeps_timer; [reflexivity|discriminate].
Qed.

(** C2.  The navigation retrier with [attempts = 2] (given, or by
    default).  The first call of [page.goto] is attempt 1.  If it
    succeeds its response, present or absent, is returned and nothing
    else is done.  If it fails, its error is recorded in [lastError],
    one line is logged and the loop goes on at once, with nothing in
    between, to attempt 2; the response of that call is returned if it
    succeeds and its error is thrown if it fails.  There is never a
    third call. *)
Theorem two_attempts_navigation fuel page url attempts s :
  (2 <= fuel)%nat ->
  attempts = None \/ (exists a, attempts = Some a /\ whole a 2) ->
  navigateWithRetry fuel page url attempts s
  = match goto_outcome page (navigations s) with
    | Done response =>
        Some (Normal response, after s [Goto url NAVIGATION_TIMEOUT_MS] 1)
    | Failed _ =>
        Some (match goto_outcome page (S (navigations s)) with
              | Done response => Normal response
              | Failed v => Throw (Raised v)
              end,
              after s [Goto url NAVIGATION_TIMEOUT_MS;
                       ConsoleLog (RetryingLine 1);
                       Goto url NAVIGATION_TIMEOUT_MS] 2)
    end
  /\ (forall v,
         goto_outcome page (navigations s) = Failed v ->
         let two := match attempts with
                    | Some a => a
                    | None => default_attempts
                    end in
         retry_loop fuel page url two 1 None s
         = retry_loop (pred fuel) page url two 2 (Some (Raised v))
             (after s [Goto url NAVIGATION_TIMEOUT_MS;
                       ConsoleLog (RetryingLine 1)] 1)).
Proof.
  intros Hfuel Hattempts.
  destruct fuel as [|[|fuel]]; [lia|lia|].
  split; [now apply navigateWithRetry_two|].
  intros v Hv two.
  assert (Hwhole : whole two 2).
  { subst two. destruct Hattempts as [->|(a & -> & Ha)];
      [apply whole_of_Z|exact Ha]. }
  rewrite retry_loop_step by now rewrite (le_whole _ _ 1 Hwhole).
  rewrite Hv. cbv zeta.
  now rewrite (strict_eq_whole _ _ 1 Hwhole), (lt_whole _ _ 1 Hwhole).
Qed.

Lemma two_attempts_navigation_witness :
  (2 <= 2)%nat
  /\ (@None number = None \/ (exists a, None = Some a /\ whole a 2))
  /\ navigateWithRetry 2 Examples.flaky_page Examples.target None initial
     = Some (Normal (Some {| status := 200 |}),
             after initial [Goto Examples.target NAVIGATION_TIMEOUT_MS;
                            ConsoleLog (RetryingLine 1);
                            Goto Examples.target NAVIGATION_TIMEOUT_MS] 2).
Proof.
  split; [apply le_n|]. split; [left; reflexivity|].
  exact (proj1 (two_attempts_navigation 2 Examples.flaky_page Examples.target
                  None initial (le_n 2) (or_introl eq_refl))).
Defined.

(** C3, as the code has it.  Once [chromium.launch()] has returned a
    browser, every way out of [extractPageMetadata] calls
    [instance.close()] exactly once, after everything the [try] block
    does; when the launch itself fails there is nothing to close and
    nothing is closed.  In both cases the caller gets the outcome of the
    [try] block, also when closing fails: that failure is only logged. *)
Theorem session_released_once_launched chromium fuel url s :
  (2 <= fuel)%nat ->
  exists c s_body s',
    extract_body chromium fuel url (fresh s) = Some (c, s_body)
    /\ extractPageMetadata chromium fuel url s = Some (c, s')
    /\ closes (trace s_body) = closes (trace s)
    /\ match launch_outcome chromium with
       | Done browser =>
           trace s'
           = trace s_body
             ++ Close :: match close_outcome browser with
                         | Done _ => []
                         | Failed v =>
                             [ConsoleError (CloseFailedLine (Raised v))]
                         end
           /\ closes (trace s') = closes (trace s) + 1
       | Failed v =>
           c = Throw (Raised v)
           /\ trace s' = trace s_body
           /\ closes (trace s') = closes (trace s)
       end.
Proof.
  intros Hfuel. destruct fuel as [|[|fuel]]; [lia|lia|].
  run_route.
  all: do 3 eexists; split; [reflexivity|]; split; [reflexivity|].
  all: cbn [trace].
  all: repeat split; try reflexivity; try (now rewrite <- app_assoc).
  all: repeat rewrite closes_app; cbn; lia.
Qed.

Lemma session_released_once_launched_witness :
  (2 <= 2)%nat
  /\ exists c s_body s',
      extract_body Examples.leaky 2 Examples.target (fresh initial)
      = Some (c, s_body)
      /\ extractPageMetadata Examples.leaky 2 Examples.target initial
         = Some (c, s')
      /\ closes (trace s_body) = closes (trace initial)
      /\ match launch_outcome Examples.leaky with
         | Done browser =>
             trace s'
             = trace s_body
               ++ Close :: match close_outcome browser with
                           | Done _ => []
                           | Failed v =>
                               [ConsoleError (CloseFailedLine (Raised v))]
                           end
             /\ closes (trace s') = closes (trace initial) + 1
         | Failed v =>
             c = Throw (Raised v)
             /\ trace s' = trace s_body
             /\ closes (trace s') = closes (trace initial)
         end.
Proof.
  split; [apply le_n|].
  exact (session_released_once_launched Examples.leaky 2 Examples.target
           initial (le_n 2)).
Defined.

(** C3 as stated fails when the browser cannot be launched: the error
    of the launch is re-raised and [close] has not been called. *)
Lemma no_release_when_launch_fails :
  exists s',
    extractPageMetadata Examples.no_browser 2 Examples.target initial
    = Some (Throw (Raised Examples.name_not_resolved), s')
    /\ closes (trace s') = 0.
Proof. eexists. split; reflexivity. Qed.

(** C4, as the code has it.  The extractor attaches no kind to a
    failure: what the browser throws while the session is acquired
    (launch, context, page), and what the second navigation throws when
    both fail, is what [extractPageMetadata] throws.  The handler answers
    504 when the timer wins, 200 with the payload when the extraction
    succeeds first, and the same 500 for every error of the extraction;
    the three are told apart by the class of the error, never by its
    message, and a failed navigation and a failed extraction are not told
    apart at all. *)
Theorem failures_reach_handler_unclassified
  new_URL chromium fuel url order s :
  (2 <= fuel)%nat ->
  falsy (Some url) = false ->
  isValidHttpUrl new_URL url = true ->
  exists c s1,
    extractPageMetadata chromium fuel url s = Some (c, s1)
    /\ (forall v, launch_outcome chromium = Failed v -> c = Throw (Raised v))
    /\ (forall browser v,
           launch_outcome chromium = Done browser ->
           newContext_outcome browser = Failed v -> c = Throw (Raised v))
    /\ (forall browser context v,
           launch_outcome chromium = Done browser ->
           newContext_outcome browser = Done context ->
           newPage_outcome context = Failed v -> c = Throw (Raised v))
    /\ (forall browser context page v1 v2,
           launch_outcome chromium = Done browser ->
           newContext_outcome browser = Done context ->
           newPage_outcome context = Done page ->
           goto_outcome page (navigations s) = Failed v1 ->
           goto_outcome page (S (navigations s)) = Failed v2 ->
           c = Throw (Raised v2))
    /\ outcome (GET new_URL chromium fuel (Some url) order s)
       = Some (Normal
                 match order with
                 | TimerFirst => timeoutResponse
                 | OperationFirst =>
                     match c with
                     | Normal payload =>
                         {| body := PayloadBody payload;
                            http_status := 200;
                            cache_control := Some success_cache_control |}
                     | Throw _ => failureResponse
                     end
                 end)
    /\ http_status timeoutResponse = 504%Z
    /\ http_status failureResponse = 500%Z.
Proof.
  intros Hfuel Htruthy Hvalid.
  destruct fuel as [|[|fuel]]; [lia|lia|].
  destruct (extract_ends chromium fuel url s)
    as (c & s1 & Hrun & Hforeign & Hlaunch & Hcontext & Hpage & Hgoto).
  exists c, s1. repeat split; try assumption.
  now apply GET_after_extraction with (s1 := s1).
Qed.

Lemma failures_reach_handler_unclassified_witness :
  (2 <= 2)%nat
  /\ falsy (Some Examples.target) = false
  /\ isValidHttpUrl Examples.new_URL Examples.target = true
  /\ exists c s1,
      extractPageMetadata Examples.unreachable 2 Examples.target initial
      = Some (c, s1)
      /\ outcome (GET Examples.new_URL Examples.unreachable 2
                      (Some Examples.target) OperationFirst initial)
         = Some (Normal match c with
                        | Normal payload =>
                            {| body := PayloadBody payload;
                               http_status := 200;
                               cache_control := Some success_cache_control |}
                        | Throw _ => failureResponse
                        end).
Proof.
  split; [apply le_n|]. split; [reflexivity|]. split; [reflexivity|].
  destruct (failures_reach_handler_unclassified
              Examples.new_URL Examples.unreachable 2 Examples.target
              OperationFirst initial (le_n 2) eq_refl eq_refl)
    as (c & s1 & Hrun & _ & _ & _ & _ & Hget & _).
  exists c, s1. split; [exact Hrun|exact Hget].
Defined.

(** C4 as stated fails: a browser that cannot be launched and a page that
    cannot be reached, failing with the same error, leave the extractor
    with the same outcome, and the handler answers both with the same
    response. *)
Lemma failure_kinds_not_distinguished :
  outcome (extractPageMetadata Examples.no_browser 2 Examples.target initial)
  = outcome (extractPageMetadata Examples.unreachable 2 Examples.target
                                 initial)
  /\ outcome (GET Examples.new_URL Examples.no_browser 2
                  (Some Examples.target) OperationFirst initial)
     = Some (Normal failureResponse)
  /\ outcome (GET Examples.new_URL Examples.unreachable 2
                  (Some Examples.target) OperationFirst initial)
     = Some (Normal failureResponse).
Proof. repeat split; vm_compute; reflexivity. Qed.

(** C5.  When the wait for network quiescence times out, the extractor
    logs one line and goes on to read the document: with the session
    open, a navigation that succeeded and a document that can be read,
    it returns the record read from that document.  More generally the
    outcome of the extractor does not depend on how that wait ends. *)
Theorem quiescence_timeout_tolerated
  chromium fuel url s browser context page response document v :
  (2 <= fuel)%nat ->
  launch_outcome chromium = Done browser ->
  newContext_outcome browser = Done context ->
  newPage_outcome context = Done page ->
  (goto_outcome page (navigations s) = Done response
   \/ (exists v1, goto_outcome page (navigations s) = Failed v1)
      /\ goto_outcome page (S (navigations s)) = Done response) ->
  waitForLoadState_outcome page = Failed v ->
  evaluate_outcome page = Done document ->
  (exists s' before rest,
      extractPageMetadata chromium fuel url s
      = Some (Normal (page_response (read_fields document) response), s')
      /\ trace s'
         = before ++ [WaitForLoadState NETWORK_IDLE_TIMEOUT_MS;
                      ConsoleLog NetworkIdleLine; Evaluate; Close] ++ rest)
  /\ (forall quiescence,
         outcome (extractPageMetadata (with_quiescence quiescence chromium)
                                      fuel url s)
         = outcome (extractPageMetadata chromium fuel url s)).
Proof.
  intros Hfuel Hlaunch Hcontext Hpage Hgoto Hwait Hdocument.
  destruct fuel as [|[|fuel]]; [lia|lia|]. split.
  - unfold_route; simpl_route.
    rewrite Hlaunch; simpl_route. rewrite Hcontext; simpl_route.
    rewrite Hpage; simpl_route.
    rewrite navigateWithRetry_two by (left; reflexivity).
    unfold after; simpl_route.
    destruct Hgoto as [Hfirst|[[v1 Hfirst] Hsecond]].
    + rewrite Hfirst; simpl_route. rewrite Hwait; simpl_route.
      rewrite Hdocument; simpl_route.
      destruct (close_outcome browser) as [?|v']; simpl_route;
        eexists;
        exists (trace s ++ [Launch; NewContext; NewPage;
                            Goto url NAVIGATION_TIMEOUT_MS]);
        [exists []|exists [ConsoleError (CloseFailedLine (Raised v'))]];
        (split; [reflexivity|]); cbn [trace];
        repeat rewrite <- app_assoc; reflexivity.
    + rewrite Hfirst, Hsecond; simpl_route. rewrite Hwait; simpl_route.
      rewrite Hdocument; simpl_route.
      destruct (close_outcome browser) as [?|v']; simpl_route;
        eexists;
        exists (trace s ++ [Launch; NewContext; NewPage;
                            Goto url NAVIGATION_TIMEOUT_MS;
                            ConsoleLog (RetryingLine 1);
                            Goto url NAVIGATION_TIMEOUT_MS]);
        [exists []|exists [ConsoleError (CloseFailedLine (Raised v'))]];
        (split; [reflexivity|]); cbn [trace];
        repeat rewrite <- app_assoc; reflexivity.
  - intros quiescence. clear.
    run_route; try reflexivity;
      destruct quiescence; simpl_route; run_route; reflexivity.
Qed.

Lemma quiescence_timeout_tolerated_witness :
  (2 <= 2)%nat
  /\ waitForLoadState_outcome Examples.busy_page
     = Failed Examples.idle_timeout
  /\ exists s' before rest,
      extractPageMetadata Examples.never_idle 2 Examples.target initial
      = Some (Normal Examples.expected, s')
      /\ trace s'
         = before ++ [WaitForLoadState NETWORK_IDLE_TIMEOUT_MS;
                      ConsoleLog NetworkIdleLine; Evaluate; Close] ++ rest.
Proof.
  split; [apply le_n|]. split; [reflexivity|].
  exact (proj1 (quiescence_timeout_tolerated
                  Examples.never_idle 2 Examples.target initial
                  _ _ Examples.busy_page (Some {| status := 200 |})
                  Examples.document Examples.idle_timeout
                  (le_n 2) eq_refl eq_refl eq_refl (or_introl eq_refl)
                  eq_refl eq_refl)).
Defined.

(** C6.  When the [url] parameter is missing or empty, when
    [new URL] rejects it, or when its protocol is neither [http:] nor
    [https:], the handler returns the response 400
    [{ error: "Invalid URL" }] and leaves the state as it found it:
    no browser is launched, no session created, no navigation made. *)
Theorem GET_rejects_invalid_url new_URL chromium fuel targetUrl order s :
  targetUrl = None \/ targetUrl = Some []
  \/ (exists value,
         targetUrl = Some value
         /\ (new_URL value = None
             \/ exists parsed,
                 new_URL value = Some parsed
                 /\ protocol parsed <> lit "http:"
                 /\ protocol parsed <> lit "https:")) ->
  GET new_URL chromium fuel targetUrl order s
  = Some (Normal invalidUrlResponse, s)
  /\ http_status invalidUrlResponse = 400%Z
  /\ body invalidUrlResponse = ErrorBody (lit "Invalid URL").
Proof.
  intros Hinvalid. split; [|split; reflexivity].
  unfold GET.
  destruct Hinvalid as [->|[->|(value & -> & Hvalue)]]; try reflexivity.
  assert (Hcheck : isValidHttpUrl new_URL value = false).
  { unfold isValidHttpUrl.
    destruct Hvalue as [->|(parsed & -> & Hhttp & Hhttps)]; [reflexivity|].
    cbn [existsb].
    now rewrite !eqb_neq by assumption. }
  cbn [or_default]. rewrite Hcheck. cbn [negb]. rewrite orb_true_r.
  reflexivity.
Qed.

Lemma GET_rejects_invalid_url_witness :
  (exists parsed,
      Examples.new_URL (lit "ftp://example.com/") = Some parsed
      /\ protocol parsed <> lit "http:"
      /\ protocol parsed <> lit "https:")
  /\ GET Examples.new_URL Examples.healthy 2
         (Some (lit "ftp://example.com/")) OperationFirst initial
     = Some (Normal invalidUrlResponse, initial).
Proof.
  assert (Hparsed : exists parsed,
             Examples.new_URL (lit "ftp://example.com/") = Some parsed
             /\ protocol parsed <> lit "http:"
             /\ protocol parsed <> lit "https:").
  { exists {| protocol := lit "ftp:" |}.
    split; [reflexivity|]. split; discriminate. }
  split; [exact Hparsed|].
  exact (proj1 (GET_rejects_invalid_url
                  Examples.new_URL Examples.healthy 2
                  (Some (lit "ftp://example.com/")) OperationFirst initial
                  (or_intror (or_intror
                     (ex_intro _ (lit "ftp://example.com/")
                        (conj eq_refl (or_intror Hparsed))))))).
Defined.



(** C8.  With the session open, a navigation that yields [response] at
    the first or second attempt, and a document whose elements, in tree
    order, are [elements], the extractor returns: as title the
    sanitized [document.title]; as description the sanitized [content]
    attribute of the first [<meta name="description">] element, else
    (no such element, or none with a [content]) that of the first
    [<meta property="og:description">] element, else the empty string;
    as h1 the sanitized text of the first [<h1>] element, or the empty
    string if there is none; as status the status of the response, or
    200 when the navigation returned no response.  The page of the
    specification's example ([Examples.elements], status 200) yields
    the record it expects. *)
Theorem extraction_reads_document
  chromium fuel url s browser context page response document elements :
  (2 <= fuel)%nat ->
  launch_outcome chromium = Done browser ->
  newContext_outcome browser = Done context ->
  newPage_outcome context = Done page ->
  (goto_outcome page (navigations s) = Done response
   \/ (exists v1, goto_outcome page (navigations s) = Failed v1)
      /\ goto_outcome page (S (navigations s)) = Done response) ->
  evaluate_outcome page = Done document ->
  Dom.shows document elements ->
  outcome (extractPageMetadata chromium fuel url s)
  = Some (Normal
      {| pr_title :=
           match title document with
           | Some t => sanitize (Some t)
           | None => []
           end;
         pr_metaDescription :=
           match Dom.attribute_of_first
                   (Dom.AttributeSelector "meta" "name" "description")
                   "content" elements with
           | Some description => sanitize (Some description)
           | None =>
               match Dom.attribute_of_first
                       (Dom.AttributeSelector "meta" "property"
                                              "og:description")
                       "content" elements with
               | Some description => sanitize (Some description)
               | None => []
               end
           end;
         pr_h1 :=
           match Dom.first_match (Dom.TypeSelector "h1") elements with
           | Some h1 => sanitize (Some (Dom.text h1))
           | None => []
           end;
         pr_status :=
           match response with
           | Some r => status r
           | None => 200%Z
           end |})
  /\ outcome (extractPageMetadata Examples.healthy 2 Examples.target initial)
     = Some (Normal {| pr_title := lit "Example";
                       pr_metaDescription := lit "A test site";
                       pr_h1 := lit "Welcome";
                       pr_status := 200 |}).
Proof.
  intros Hfuel Hlaunch Hcontext Hpage Hgoto Hdocument Hshows.
  split; [|reflexivity].
  destruct fuel as [|[|fuel]]; [lia|lia|].
  rewrite (page_response_elements document elements response Hshows).
  unfold_route; simpl_route.
  rewrite Hlaunch; simpl_route. rewrite Hcontext; simpl_route.
  rewrite Hpage; simpl_route.
  rewrite navigateWithRetry_two by (left; reflexivity).
  unfold after; simpl_route.
  destruct Hgoto as [Hfirst|[[v1 Hfirst] Hsecond]].
  - rewrite Hfirst; simpl_route.
    destruct (waitForLoadState_outcome page); simpl_route;
      rewrite Hdocument; simpl_route;
      destruct (close_outcome browser); reflexivity.
  - rewrite Hfirst, Hsecond; simpl_route.
    destruct (waitForLoadState_outcome page); simpl_route;
      rewrite Hdocument; simpl_route;
      destruct (close_outcome browser); reflexivity.
Qed.

Lemma extraction_reads_document_witness :
  (2 <= 2)%nat
  /\ Dom.shows Examples.document Examples.elements
  /\ outcome (extractPageMetadata Examples.flaky 2 Examples.target initial)
     = Some (Normal {| pr_title := lit "Example";
                       pr_metaDescription := lit "A test site";
                       pr_h1 := lit "Welcome";
                       pr_status := 200 |}).
Proof.
  split; [apply le_n|].
  split; [apply document_shows|].
  exact (proj1 (extraction_reads_document
                  Examples.flaky 2 Examples.target initial
                  _ _ Examples.flaky_page (Some {| status := 200 |})
                  Examples.document Examples.elements
                  (le_n 2) eq_refl eq_refl eq_refl
                  (or_intror (conj (ex_intro _ Examples.name_not_resolved
                                             eq_refl) eq_refl))
                  eq_refl
                  (document_shows (Some (lit "Example"))
                                  Examples.elements))).
Defined.

(** C9.  When [attempts < 1] the condition of the loop fails at once:
    the body never runs, [page.goto] is not called (the state is left as
    it was), and control reaches the [throw] after the loop with no
    error recorded, which throws [new Error("Navigation failed")]. *)
Theorem navigateWithRetry_without_attempts fuel page url attempts s :
  JsNumber.lt attempts (of_Z 1) = true ->
  retry_loop fuel page url attempts 1 None s
  = Some (Normal (LoopEnded None), s)
  /\ navigateWithRetry fuel page url (Some attempts) s
     = Some (Throw (Error_new (lit "Navigation failed")), s).
Proof.
  intros Hlt%lt_one_not_le.
  assert (Hloop := retry_loop_end fuel page url attempts 1 None s Hlt).
  split; [exact Hloop|].
  unfold navigateWithRetry, bind. now rewrite Hloop.
Qed.

Lemma navigateWithRetry_without_attempts_witness :
  JsNumber.lt (of_Z 0) (of_Z 1) = true
  /\ navigateWithRetry 5 Examples.loaded_page Examples.target
                       (Some (of_Z 0)) initial
     = Some (Throw (Error_new (lit "Navigation failed")), initial).
Proof.
  split; [reflexivity|].
  exact (proj2 (navigateWithRetry_without_attempts
                  5 Examples.loaded_page Examples.target (of_Z 0) initial
                  eq_refl)).
Defined.

(** C10, as the code has it.  When [attempts] is a whole number, at
    least 1, the loop is never left through its condition, so the
    [throw] after the loop is not reached: a call that ends has returned
    the response of the navigation it made last, or has thrown, from
    inside the loop, the error of the navigation it made last, which was
    attempt number [attempts].  Up to [2^53] attempts the call does end,
    within [attempts] turns of the loop. *)
Theorem navigateWithRetry_whole_attempts page url attempts k :
  whole attempts k -> (1 <= k)%Z ->
  (forall fuel s c s',
      navigateWithRetry fuel page url (Some attempts) s = Some (c, s') ->
      exists exit,
        retry_loop fuel page url attempts 1 None s = Some (Normal exit, s')
        /\ ((exists response,
                exit = ReturnedInLoop response /\ c = Normal response
                /\ goto_outcome page (pred (navigations s')) = Done response
                /\ (navigations s < navigations s')%nat)
            \/ (exists v,
                   exit = ThrownInLoop (Raised v) /\ c = Throw (Raised v)
                   /\ goto_outcome page (pred (navigations s')) = Failed v
                   /\ ((k <= MAX_EXACT)%Z ->
                       Z.of_nat (navigations s')
                       = (Z.of_nat (navigations s) + k)%Z))))
  /\ ((k <= MAX_EXACT)%Z ->
      forall fuel s,
        (Z.to_nat k <= fuel)%nat ->
        exists c s',
          navigateWithRetry fuel page url (Some attempts) s = Some (c, s')).
Proof.
  intros Hwhole Hk. split.
  - intros fuel s c s'. unfold navigateWithRetry, bind.
    destruct (retry_loop fuel page url attempts 1 None s)
      as [[c0 s0]|] eqn:Hloop; [|discriminate].
    assert (Hone : (1 <= MAX_EXACT)%Z) by (unfold MAX_EXACT; lia).
    destruct (retry_loop_whole page url attempts k Hwhole fuel
                1%Z None s c0 s0 Hk Hone Hloop)
      as [(r & -> & Hr & Hn)|(v & -> & Hv & Hn & Hcount)];
      cbn [leave]; unfold ret, throw; intros [= <- <-].
    + exists (ReturnedInLoop r). split; [reflexivity|]. left. eauto.
    + exists (ThrownInLoop (Raised v)). split; [reflexivity|]. right.
      exists v. repeat split; auto. intros Hkm. rewrite (Hcount Hkm). lia.
  - intros Hkm fuel s Hfuel. unfold navigateWithRetry, bind.
    destruct (retry_loop_whole_terminates page url attempts k Hwhole fuel
                1%Z None s Hk Hkm) as (c0 & s0 & Hloop).
    { replace (k - 1 + 1)%Z with k by lia. exact Hfuel. }
    rewrite Hloop.
    assert (Hone : (1 <= MAX_EXACT)%Z) by (unfold MAX_EXACT; lia).
    destruct (retry_loop_whole page url attempts k Hwhole fuel
                1%Z None s c0 s0 Hk Hone Hloop)
      as [(r & -> & _)|(v & -> & _)]; cbn [leave]; unfold ret, throw; eauto.
Qed.

Lemma navigateWithRetry_whole_attempts_witness :
  whole (of_Z 3) 3 /\ (1 <= 3)%Z
  /\ exists c s',
      navigateWithRetry 3 Examples.dead_page Examples.target
                        (Some (of_Z 3)) initial = Some (c, s').
Proof.
  split; [reflexivity|]. split; [discriminate|].
  refine (proj2 (navigateWithRetry_whole_attempts
                   Examples.dead_page Examples.target (of_Z 3) 3
                   (Qeq_refl (inject_Z 3)) _) _ 3 initial (le_n 3));
    discriminate.
Defined.

(** C10 as stated fails for an [attempts] that is not whole: with
    [attempts = 1.5] (which is [>= 1]) and a navigation that fails, the
    first attempt is not the last ([1 === 1.5] is false), no second one
    is made ([2 <= 1.5] is false), and the loop ends through its
    condition: the [throw] after the loop is what ends the call. *)
Lemma fallback_reached_for_fractional_attempts :
  JsNumber.le (of_Z 1) (Finite (3 # 2)) = true
  /\ retry_loop 2 Examples.dead_page Examples.target (Finite (3 # 2)) 1
                None initial
     = Some (Normal (LoopEnded (Some (Raised Examples.name_not_resolved))),
             after initial [Goto Examples.target NAVIGATION_TIMEOUT_MS;
                            ConsoleLog (RetryingLine 1)] 1).
Proof. split; reflexivity. Qed.

(* ================================================================= *)
(** * Further properties *)

(* ================================================================= *)
(** ** More on [sanitize] *)

Module SanitizeFacts.
Import Normal NormalFacts.

Lemma fields_clean_app (w t : jsstring) :
  clean w ->
  fields (w ++ t)
  = match fields t with
    | f :: fs => (w ++ f) :: fs
    | [] => [w]
    end.
Proof.
  induction w as [|c w IH]; intros Hw.
  - simpl. destruct (fields t) eqn:Ht; [now apply fields_not_nil in Ht|].
    reflexivity.
  - inversion Hw as [|? ? Hc Hw']; subst. simpl. rewrite Hc.
    rewrite (IH Hw'). destruct (fields t); reflexivity.
Qed.

(** Splitting what [unwords] joined gives the words back. *)
Lemma words_unwords (ws : list jsstring) :
  Forall (fun w => nonempty w = true) ws -> Forall clean ws ->
  words (unwords ws) = ws.
Proof.
  induction ws as [|w rest IH]; intros Hne Hcl; [reflexivity|].
  inversion Hne as [|? ? Hw Hne']; subst.
  inversion Hcl as [|? ? Hc Hcl']; subst.
  rewrite unwords_cons. unfold words.
  rewrite (fields_clean_app _ _ Hc).
  destruct rest as [|w' rest'].
  - simpl. rewrite app_nil_r, Hw. reflexivity.
  - cbn [fields]. rewrite space_is_whitespace.
    rewrite app_nil_r. cbn [filter]. rewrite Hw. f_equal.
    apply (IH Hne' Hcl').
Qed.

Lemma replace_runs_fixed (s : jsstring) :
  forall in_run,
    no_doubled_whitespace s -> only_plain_spaces s ->
    (in_run = true -> no_leading_whitespace s) ->
    replace_runs in_run s = s.
Proof.
  induction s as [|c rest IH]; intros in_run Hdouble Hplain Hlead;
    [reflexivity|].
  destruct Hdouble as [Hpair Hdouble].
  inversion Hplain as [|? ? Hc Hplain']; subst.
  simpl. destruct (is_whitespace c) eqn:Hws.
  - destruct in_run.
    + specialize (Hlead eq_refl). simpl in Hlead. congruence.
    + rewrite (Hc eq_refl). f_equal. apply IH; try assumption.
      intros _. destruct rest as [|d rest']; [exact I|].
      simpl. rewrite ?Hws in Hpair. exact Hpair.
  - f_equal. apply IH; try assumption. discriminate.
Qed.

Lemma no_trailing_tail (c d : code_unit) (rest : jsstring) :
  no_trailing_whitespace (c :: d :: rest) ->
  no_trailing_whitespace (d :: rest).
Proof.
  unfold no_trailing_whitespace. simpl.
  destruct (rev rest ++ [d]) as [|x l] eqn:Hr; [|trivial].
  now destruct (rev rest).
Qed.

Lemma trimEnd_fixed (s : jsstring) :
  no_trailing_whitespace s -> trimEnd s = s.
Proof.
  induction s as [|c rest IH]; intros Htrail; [reflexivity|].
  destruct rest as [|d rest'].
  - simpl. unfold no_trailing_whitespace in Htrail. simpl in Htrail.
    now rewrite Htrail.
  - change (trimEnd (c :: d :: rest'))
      with (match trimEnd (d :: rest') with
            | [] => if is_whitespace c then [] else [c]
            | kept => c :: kept
            end).
    rewrite (IH (no_trailing_tail _ _ _ Htrail)). reflexivity.
Qed.

Lemma sanitize_fixed (s : jsstring) :
  normalized s -> sanitize (Some s) = s.
Proof.
  intros (Hlead & Htrail & Hdouble & Hplain).
  unfold sanitize, trim, replace_whitespace.
  rewrite replace_runs_fixed by (assumption || discriminate).
  rewrite trimStart_no_leading by assumption.
  now apply trimEnd_fixed.
Qed.

Lemma replace_runs_length (s : jsstring) :
  forall in_run, (List.length (replace_runs in_run s) <= List.length s)%nat.
Proof.
  induction s as [|c rest IH]; intros in_run; simpl; [lia|].
  destruct (is_whitespace c); [destruct in_run|]; simpl;
    match goal with |- context [replace_runs ?b rest] =>
      specialize (IH b) end; lia.
Qed.

Lemma trimStart_length (s : jsstring) :
  (List.length (trimStart s) <= List.length s)%nat.
Proof.
  induction s as [|c rest IH]; simpl; [lia|].
  destruct (is_whitespace c); simpl; lia.
Qed.

Lemma trimEnd_length (s : jsstring) :
  (List.length (trimEnd s) <= List.length s)%nat.
Proof.
  induction s as [|c rest IH]; simpl; [lia|].
  destruct (trimEnd rest); [destruct (is_whitespace c)|]; simpl in *; lia.
Qed.

Lemma words_nil_iff (s : jsstring) :
  words s = [] <-> Forall (fun c => is_whitespace c = true) s.
Proof.
  unfold words. induction s as [|c rest IH]; simpl.
  - split; [constructor|reflexivity].
  - destruct (is_whitespace c) eqn:Hc.
    + simpl. rewrite IH. split; [now constructor|].
      now inversion 1.
    + destruct (fields rest); simpl; split; try discriminate;
        inversion 1; congruence.
Qed.

End SanitizeFacts.

(** X1.  [sanitize] is idempotent: sanitizing what it returned changes
    nothing. *)
Theorem sanitize_idempotent (value : option jsstring) :
  sanitize (Some (sanitize value)) = sanitize value.
Proof.
  destruct value as [s|]; [|reflexivity].
  rewrite (NormalFacts.sanitize_unwords (sanitize (Some s))).
  rewrite (NormalFacts.sanitize_unwords s) at 1.
  rewrite SanitizeFacts.words_unwords
    by (apply NormalFacts.words_nonempty || apply NormalFacts.words_clean).
  symmetry. apply NormalFacts.sanitize_unwords.
Qed.

(** X2.  [sanitize] keeps the text: the words of its result, in order,
    are the words of its argument; only whitespace is dropped or
    replaced. *)
Theorem sanitize_keeps_words (s : jsstring) :
  Normal.words (sanitize (Some s)) = Normal.words s.
Proof.
  rewrite NormalFacts.sanitize_unwords.
  apply SanitizeFacts.words_unwords;
    [apply NormalFacts.words_nonempty|apply NormalFacts.words_clean].
Qed.

(** X3.  The strings [sanitize] leaves as they are are exactly the
    normalized ones: no whitespace at either end, no two whitespace
    code units in a row, no whitespace but U+0020. *)
Theorem sanitize_fixes_normalized (s : jsstring) :
  sanitize (Some s) = s <-> Normal.normalized s.
Proof.
  split.
  - intros <-. apply NormalFacts.sanitize_normalized.
  - apply SanitizeFacts.sanitize_fixed.
Qed.

(** X4.  [sanitize] never returns more code units than it was given. *)
Theorem sanitize_never_longer (value : option jsstring) :
  (List.length (sanitize value)
   <= List.length (match value with Some s => s | None => [] end))%nat.
Proof.
  unfold sanitize, trim, replace_whitespace.
  eapply Nat.le_trans; [apply SanitizeFacts.trimEnd_length|].
  eapply Nat.le_trans; [apply SanitizeFacts.trimStart_length|].
  apply SanitizeFacts.replace_runs_length.
Qed.

(** X5.  [sanitize] returns the empty string exactly for an absent
    value and for a string made of whitespace only (the empty string
    among them). *)
Theorem sanitize_empty_iff (value : option jsstring) :
  sanitize value = []
  <-> match value with
      | None => True
      | Some s => Forall (fun c => is_whitespace c = true) s
      end.
Proof.
  destruct value as [s|]; [|split; reflexivity].
  rewrite NormalFacts.sanitize_unwords, <- SanitizeFacts.words_nil_iff.
  split.
  - apply NormalFacts.unwords_nil_inv, NormalFacts.words_nonempty.
  - now intros ->.
Qed.

(* ================================================================= *)
(** ** More on the deadline guard *)

Module GuardFacts.
Section Facts.
Variable T : Type.
Implicit Types (g : guard T) (ev : guard_event T) (c : completion T).

Lemma deliver_consistent g ev :
guard_consistent g -> guard_consistent (deliver g ev).
Proof.
unfold guard_consistent.
destruct g as [op tm dl out]; destruct ev as [c|]; simpl;
destruct tm, op; simpl; intros H; try contradiction;
try rewrite H; try reflexivity; try assumption.
Qed.

Lemma run_consistent evs : forall g,
guard_consistent g -> guard_consistent (run g evs).
Proof.
induction evs as [|ev evs IH]; intros g Hg; [exact Hg|].
rewrite run_cons. apply IH. now apply deliver_consistent.
Qed.

Lemma run_app evs1 evs2 g : run g (evs1 ++ evs2) = run (run g evs1) evs2.
Proof. apply fold_left_app. Qed.

Lemma deliver_keeps_operation g ev c :
operation g = Some c -> operation (deliver g ev) = Some c.
Proof.
intros Hg. destruct ev as [c'|]; simpl.
- now rewrite Hg.
- now destruct (timer g).
Qed.

Lemma run_keeps_operation evs : forall g c,
operation g = Some c -> operation (run g evs) = Some c.
Proof.
induction evs as [|ev evs IH]; intros g c Hg; [exact Hg|].
rewrite run_cons. apply IH. now apply deliver_keeps_operation.
Qed.
End Facts.
End GuardFacts.

(** X6.  Whatever the event loop delivers, in whatever order and how
    often, the guard of [withTimeout] is in one of four states: pending
    with the timer armed and the operation pending; settled as the
    operation did, with the timer cleared; or rejected with the timeout
    error, the timer having fired, the operation pending or settled
    later.  So its promise is never settled while the timer is armed.
    And nothing delivered later undoes what has happened: a timer that
    was cleared stays cleared (it never fires after [clearTimeout]), a
    timer that fired stays fired, and the promise of the guard and the
    operation keep the settlement they have. *)
Theorem guard_stays_consistent
  (T : Type) (timeout : Z) (before later : list (guard_event T)) :
  let g := run (withTimeout T timeout) before in
  let g' := run (withTimeout T timeout) (before ++ later) in
  guard_consistent g
  /\ (timer g = Cleared -> timer g' = Cleared)
  /\ (timer g = Fired -> timer g' = Fired)
  /\ (forall c, outer g = Some c -> outer g' = Some c)
  /\ (forall c, operation g = Some c -> operation g' = Some c).
Proof.
  cbv zeta. rewrite GuardFacts.run_app.
  split; [now apply GuardFacts.run_consistent|].
  split; [intros H; rewrite run_keeps_timer; rewrite H; congruence|].
  split; [intros H; rewrite run_keeps_timer; rewrite H; congruence|].
  split; intros c H.
  - now apply run_keeps_outer.
  - now apply GuardFacts.run_keeps_operation.
Qed.

Lemma guard_stays_consistent_witness :
  let before := [OperationSettles (Normal 7%nat)] in
  let later := [TimerElapses; OperationSettles (Normal 8%nat)] in
  let g := run (withTimeout nat 20000) before in
  let g' := run (withTimeout nat 20000) (before ++ later) in
  timer g = Cleared /\ outer g = Some (Normal 7%nat)
  /\ timer g' = Cleared /\ outer g' = Some (Normal 7%nat).
Proof.
  cbv zeta.
  destruct (guard_stays_consistent nat 20000
              [OperationSettles (Normal 7%nat)]
              [TimerElapses; OperationSettles (Normal 8%nat)])
    as (_ & Hcleared & _ & Houter & _).
  split; [reflexivity|]. split; [reflexivity|].
  split; [exact (Hcleared eq_refl)|exact (Houter _ eq_refl)].
Defined.

(* ================================================================= *)
(** ** More on the retry loop *)

Module RetryMore.

Lemma retry_events_succ url first n :
  retry_events url first (S n)
  = ConsoleLog (RetryingLine first) :: Goto url NAVIGATION_TIMEOUT_MS
    :: retry_events url (first + 1) n.
Proof. reflexivity. Qed.

Section WholeAttempts.
Variables (page : Page) (url : jsstring) (attempts : number) (k : Z).
Hypothesis attempts_whole : whole attempts k.
Hypothesis attempts_exact : (k <= MAX_EXACT)%Z.

(** What the loop adds to the trace: one navigation per attempt and
    one line per retry, and at most as many attempts as are left. *)
Lemma retry_loop_shape fuel :
  forall a lastError s c s',
    (a <= k)%Z ->
    retry_loop fuel page url attempts a lastError s = Some (c, s') ->
    exists n,
      (1 <= n)%nat /\ (a + Z.of_nat n - 1 <= k)%Z
      /\ s' = after s (Goto url NAVIGATION_TIMEOUT_MS
                       :: retry_events url a (n - 1)) n.
Proof.
  induction fuel as [|fuel IH]; intros a lastError s c s' Hak Hrun.
  - cbn [retry_loop] in Hrun.
    rewrite (le_whole _ _ a attempts_whole) in Hrun.
    destruct (Z.leb_spec a k); [discriminate Hrun|lia].
  - rewrite retry_loop_step in Hrun
      by (rewrite (le_whole _ _ a attempts_whole); now apply Z.leb_le).
    destruct (goto_outcome page (navigations s)) as [r|v].
    + injection Hrun as <- <-. exists 1%nat. repeat split; lia.
    + cbv zeta in Hrun.
      rewrite (strict_eq_whole _ _ a attempts_whole),
        (lt_whole _ _ a attempts_whole) in Hrun.
      destruct (Z.eqb_spec a k) as [->|Hne].
      * rewrite Z.ltb_irrefl in Hrun. injection Hrun as <- <-.
        exists 1%nat. repeat split; lia.
      * assert (Hlt : (a <? k)%Z = true) by (apply Z.ltb_lt; lia).
        rewrite Hlt in Hrun.
        assert (Hmax : (a <= MAX_EXACT)%Z) by lia.
        destruct (incr_le_whole _ _ Hak Hne Hmax) as (Hk' & _ & Hincr).
        rewrite (Hincr attempts_exact) in Hrun, Hk'.
        destruct (IH _ _ _ _ _ Hk' Hrun) as (n & Hn & Hbound & ->).
        exists (S n). split; [lia|]. split; [lia|].
        rewrite after_after. f_equal.
        -- cbn [app]. f_equal.
           replace (S n - 1)%nat with (S (n - 1)) by lia.
           reflexivity.
        -- lia.
Qed.
End WholeAttempts.

(** The loop only adds navigations. *)
Lemma retry_loop_monotone fuel page url attempts :
  forall attempt lastError s c s',
    retry_loop fuel page url attempts attempt lastError s = Some (c, s') ->
    (navigations s <= navigations s')%nat.
Proof.
  induction fuel as [|fuel IH]; intros attempt lastError s c s' Hrun;
    destruct (JsNumber.le (of_Z attempt) attempts) eqn:Hle;
    try (rewrite retry_loop_end in Hrun by exact Hle;
         injection Hrun as _ <-; lia).
  - cbn [retry_loop] in Hrun. rewrite Hle in Hrun. discriminate Hrun.
  - rewrite retry_loop_step in Hrun by exact Hle.
    destruct (goto_outcome page (navigations s)).
    + injection Hrun as _ <-. cbn [after navigations]. lia.
    + cbv zeta in Hrun.
      destruct (strict_eq (of_Z attempt) attempts).
      * injection Hrun as _ <-. cbn [after navigations]. lia.
      * apply IH in Hrun. cbn [after navigations] in Hrun. lia.
Qed.

Section AnyAttempts.
Variables (page : Page) (url : jsstring) (attempts : number).

Lemma retry_loop_sources fuel :
  forall attempt lastError s c s' lo,
    (lo <= navigations s)%nat ->
    (forall e, lastError = Some e -> thrown_between page lo (navigations s) e) ->
    retry_loop fuel page url attempts attempt lastError s = Some (c, s') ->
    (navigations s <= navigations s')%nat
    /\ exists exit,
        c = Normal exit
        /\ match exit with
           | ReturnedInLoop r =>
               exists n, (lo <= n < navigations s')%nat
                         /\ goto_outcome page n = Done r
           | ThrownInLoop e => thrown_between page lo (navigations s') e
           | LoopEnded last =>
               forall e, last = Some e ->
                         thrown_between page lo (navigations s') e
           end.
Proof.
  induction fuel as [|fuel IH];
    intros attempt lastError s c s' lo Hlo Hlast Hrun;
    destruct (JsNumber.le (of_Z attempt) attempts) eqn:Hle;
    try (rewrite retry_loop_end in Hrun by exact Hle;
         injection Hrun as <- <-; split; [lia|];
         exists (LoopEnded lastError); split; [reflexivity|exact Hlast]).
  - cbn [retry_loop] in Hrun. rewrite Hle in Hrun. discriminate Hrun.
  - rewrite retry_loop_step in Hrun by exact Hle.
    destruct (goto_outcome page (navigations s)) as [r|v] eqn:Hgoto.
    + injection Hrun as <- <-. cbn [after navigations]. split; [lia|].
      exists (ReturnedInLoop r). split; [reflexivity|].
      exists (navigations s). split; [lia|exact Hgoto].
    + cbv zeta in Hrun.
      assert (Hv : thrown_between page lo (S (navigations s)) (Raised v)).
      { exists (navigations s), v. repeat split; [lia|lia|exact Hgoto]. }
      destruct (strict_eq (of_Z attempt) attempts).
      * injection Hrun as <- <-. cbn [after navigations]. split; [lia|].
        exists (ThrownInLoop (Raised v)). split; [reflexivity|exact Hv].
      * apply (IH _ _ _ _ _ lo) in Hrun.
        -- cbn [after navigations] in Hrun.
           destruct Hrun as [Hmono Hexit]. split; [lia|exact Hexit].
        -- cbn [after navigations]. lia.
        -- intros e [= <-]. exact Hv.
Qed.
End AnyAttempts.

(** A response [navigateWithRetry] returns is the response of one of
    the navigations it made. *)
Lemma navigateWithRetry_returns_goto fuel page url attempts s response s' :
  navigateWithRetry fuel page url attempts s = Some (Normal response, s') ->
  exists n, (navigations s <= n < navigations s')%nat
            /\ goto_outcome page n = Done response.
Proof.
  unfold navigateWithRetry, bind.
  set (number_of_attempts :=
         match attempts with Some a => a | None => default_attempts end).
  destruct (retry_loop fuel page url number_of_attempts 1 None s)
    as [[c0 s0]|] eqn:Hloop; [|discriminate].
  destruct (retry_loop_sources page url number_of_attempts fuel
              1%Z None s c0 s0 (navigations s) (le_n _)) as
    (_ & exit & -> & Hexit); [discriminate|exact Hloop|].
  destruct exit as [r|e|last]; cbn [leave]; unfold ret, throw;
    intros [= <- <-]. exact Hexit.
Qed.

(** With [attempts = Infinity] the loop goes on to the first
    navigation that succeeds. *)
Lemma retry_loop_unbounded_success page url r :
  forall n fuel attempt lastError s,
    (forall m, (m < n)%nat ->
               exists v, goto_outcome page (navigations s + m) = Failed v) ->
    goto_outcome page (navigations s + n) = Done r ->
    (n < fuel)%nat ->
    exists s',
      retry_loop fuel page url PosInfinity attempt lastError s
      = Some (Normal (ReturnedInLoop r), s')
      /\ navigations s' = (navigations s + n + 1)%nat.
Proof.
  induction n as [|n IH]; intros fuel attempt lastError s Hfail Hok Hfuel;
    (destruct fuel as [|fuel]; [lia|]);
    rewrite retry_loop_step by reflexivity.
  - rewrite Nat.add_0_r in Hok. rewrite Hok.
    eexists. split; [reflexivity|]. cbn [after navigations]. lia.
  - destruct (Hfail 0%nat) as [v Hv]; [lia|].
    rewrite Nat.add_0_r in Hv. rewrite Hv. cbv zeta.
    change (strict_eq (of_Z attempt) PosInfinity) with false. cbv iota.
    destruct (IH fuel (incr attempt) (Some (Raised v))
                 (after s (Goto url NAVIGATION_TIMEOUT_MS
                           :: (if JsNumber.lt (of_Z attempt) PosInfinity
                               then [ConsoleLog (RetryingLine attempt)]
                               else [])) 1))
      as (s' & Hrun & Hnav).
    + intros m Hm. cbn [after navigations].
      destruct (Hfail (S m)) as [v' Hv']; [lia|].
      exists v'. rewrite <- Hv'. f_equal. lia.
    + cbn [after navigations]. rewrite <- Hok. f_equal. lia.
    + lia.
    + exists s'. split; [exact Hrun|].
      rewrite Hnav. cbn [after navigations]. lia.
Qed.

End RetryMore.

(** X7.  With a whole number of attempts between 1 and 2^53, a call of
    [navigateWithRetry] that ends has made [n] navigations for some [n]
    from 1 to [attempts], all of the same URL with the 15 s timeout, has
    logged one line before each retry, numbered from 1, and has done
    nothing else. *)
Theorem navigateWithRetry_bounded_retries
  fuel page url attempts k s c s' :
  whole attempts k -> (1 <= k <= MAX_EXACT)%Z ->
  navigateWithRetry fuel page url (Some attempts) s = Some (c, s') ->
  exists n,
    (1 <= n)%nat /\ (Z.of_nat n <= k)%Z
    /\ s' = after s (Goto url NAVIGATION_TIMEOUT_MS
                     :: retry_events url 1 (n - 1)) n.
Proof.
  intros Hwhole [Hk Hmax]. unfold navigateWithRetry, bind.
  destruct (retry_loop fuel page url attempts 1 None s)
    as [[c0 s0]|] eqn:Hloop; [|discriminate].
  destruct (RetryMore.retry_loop_shape page url attempts k Hwhole Hmax
              fuel 1%Z None s c0 s0 Hk Hloop) as (n & Hn & Hbound & ->).
  intros Hleave. exists n. split; [exact Hn|]. split; [lia|].
  destruct c0 as [[r|e|last]|e]; cbn [leave] in Hleave;
    unfold ret, throw in Hleave; now injection Hleave as _ <-.
Qed.

Lemma navigateWithRetry_bounded_retries_witness :
  whole (of_Z 3) 3 /\ (1 <= 3 <= MAX_EXACT)%Z
  /\ exists c s',
      navigateWithRetry 3 Examples.dead_page Examples.target
                        (Some (of_Z 3)) initial = Some (c, s')
      /\ exists n,
          (1 <= n)%nat /\ (Z.of_nat n <= 3)%Z
          /\ s' = after initial
                    (Goto Examples.target NAVIGATION_TIMEOUT_MS
                     :: retry_events Examples.target 1 (n - 1)) n.
Proof.
  split; [reflexivity|]. split; [split; discriminate|].
  eexists. eexists. split; [reflexivity|].
  refine (navigateWithRetry_bounded_retries
            3 Examples.dead_page Examples.target (of_Z 3) 3 initial _ _
            (Qeq_refl (inject_Z 3)) _ eq_refl).
  split; discriminate.
Defined.

(** X8.  Whatever number [attempts] is (fractional, infinite or NaN
    included) and however the loop is left, a response that
    [navigateWithRetry] returns is the response of one of the
    navigations it made, and a value it throws is the value thrown by
    one of the navigations it made or [new Error("Navigation failed")];
    it never makes up anything else. *)
Theorem navigateWithRetry_sources fuel page url attempts s c s' :
  navigateWithRetry fuel page url attempts s = Some (c, s') ->
  (navigations s <= navigations s')%nat
  /\ match c with
     | Normal response =>
         exists n, (navigations s <= n < navigations s')%nat
                   /\ goto_outcome page n = Done response
     | Throw e =>
         e = Error_new (lit "Navigation failed")
         \/ thrown_between page (navigations s) (navigations s') e
     end.
Proof.
  unfold navigateWithRetry, bind.
  set (number_of_attempts :=
         match attempts with Some a => a | None => default_attempts end).
  destruct (retry_loop fuel page url number_of_attempts 1 None s)
    as [[c0 s0]|] eqn:Hloop; [|discriminate].
  destruct (RetryMore.retry_loop_sources page url number_of_attempts fuel
              1%Z None s c0 s0 (navigations s) (le_n _)) as
    (Hmono & exit & -> & Hexit); [discriminate|exact Hloop|].
  destruct exit as [r|e|last]; cbn [leave]; unfold ret, throw;
    intros [= <- <-]; (split; [exact Hmono|]).
  - exact Hexit.
  - right. exact Hexit.
  - destruct last as [e|]; cbn [fallback_error]; [|now left].
    destruct (instanceof_Error e); [right; now apply Hexit|now left].
Qed.

Lemma navigateWithRetry_sources_witness :
  exists s',
    navigateWithRetry 5 Examples.dead_page Examples.target
                      (Some (Finite (5 # 2))) initial
    = Some (Throw (Raised Examples.name_not_resolved), s')
    /\ thrown_between Examples.dead_page (navigations initial)
                      (navigations s') (Raised Examples.name_not_resolved).
Proof.
  eexists. split; [reflexivity|].
  destruct (navigateWithRetry_sources
              5 Examples.dead_page Examples.target (Some (Finite (5 # 2)))
              initial _ _ eq_refl) as [_ [Hgeneric|Hthrown]];
    [discriminate Hgeneric|exact Hthrown].
Defined.

(** X9.  A call of [navigateWithRetry] that ends has navigated at least
    once exactly when [1 <= attempts] holds.  For every other value of
    [attempts] (below 1, minus infinity, NaN) it has done nothing and
    throws [new Error("Navigation failed")]. *)
Theorem navigateWithRetry_navigates_iff fuel page url attempts s c s' :
  navigateWithRetry fuel page url (Some attempts) s = Some (c, s') ->
  ((navigations s < navigations s')%nat
   <-> JsNumber.le (of_Z 1) attempts = true)
  /\ (JsNumber.le (of_Z 1) attempts = false ->
      s' = s /\ c = Throw (Error_new (lit "Navigation failed"))).
Proof.
  intros Hrun.
  destruct (JsNumber.le (of_Z 1) attempts) eqn:Hle.
  - split; [|discriminate]. split; [reflexivity|intros _].
    revert Hrun. unfold navigateWithRetry, bind.
    destruct fuel as [|fuel];
      [cbn [retry_loop]; rewrite Hle; discriminate|].
    rewrite retry_loop_step by exact Hle.
    destruct (goto_outcome page (navigations s)) as [r|v].
    + cbn [leave]. unfold ret. intros [= _ <-].
      cbn [after navigations]. lia.
    + cbv zeta.
      destruct (strict_eq (of_Z 1) attempts).
      * cbn [leave]. unfold throw. intros [= _ <-].
        cbn [after navigations]. lia.
      * destruct (retry_loop fuel page url attempts (incr 1) _ _)
          as [[c0 s0]|] eqn:Hloop; [|discriminate].
        apply RetryMore.retry_loop_monotone in Hloop.
        cbn [after navigations] in Hloop.
        destruct c0 as [exit|e]; [destruct exit|]; cbn [leave];
          unfold ret, throw; intros [= _ <-]; lia.
  - revert Hrun. unfold navigateWithRetry, bind.
    rewrite retry_loop_end by exact Hle. cbn [leave fallback_error].
    unfold throw. intros [= <- <-].
    split; [|now split]. split; [lia|discriminate].
Qed.

Lemma navigateWithRetry_navigates_iff_witness :
  navigateWithRetry 1 Examples.loaded_page Examples.target (Some NaN) initial
  = Some (Throw (Error_new (lit "Navigation failed")), initial)
  /\ ((navigations initial < navigations initial)%nat
      <-> JsNumber.le (of_Z 1) NaN = true).
Proof.
  split; [reflexivity|].
  exact (proj1 (navigateWithRetry_navigates_iff
                  1 Examples.loaded_page Examples.target NaN initial
                  _ _ eq_refl)).
Defined.

(** X10.  With [attempts = Infinity] the retrier never gives up: if
    every navigation fails the call has no end, whatever the bound on
    the turns of the loop; if navigation number [n] (from 0) is the
    first to succeed, the call returns its response after exactly
    [n + 1] navigations. *)
Theorem navigateWithRetry_unbounded page url s :
  ((forall n, exists v, goto_outcome page n = Failed v) ->
   forall fuel, navigateWithRetry fuel page url (Some PosInfinity) s = None)
  /\ (forall n response fuel,
         (forall m, (m < n)%nat ->
            exists v, goto_outcome page (navigations s + m) = Failed v) ->
         goto_outcome page (navigations s + n) = Done response ->
         (n < fuel)%nat ->
         exists s',
           navigateWithRetry fuel page url (Some PosInfinity) s
           = Some (Normal response, s')
           /\ navigations s' = (navigations s + n + 1)%nat).
Proof.
  split.
  - intros Hdead fuel. unfold navigateWithRetry, bind.
    now rewrite retry_loop_without_bound.
  - intros n response fuel Hfail Hok Hfuel.
    destruct (RetryMore.retry_loop_unbounded_success page url response
                n fuel 1%Z None s Hfail Hok Hfuel) as (s' & Hloop & Hnav).
    exists s'. split; [|exact Hnav].
    unfold navigateWithRetry, bind. now rewrite Hloop.
Qed.

Lemma navigateWithRetry_unbounded_witness :
  (forall n, exists v, goto_outcome Examples.dead_page n = Failed v)
  /\ (forall fuel,
         navigateWithRetry fuel Examples.dead_page Examples.target
                           (Some PosInfinity) initial = None).
Proof.
  assert (Hdead : forall n, exists v,
                    goto_outcome Examples.dead_page n = Failed v)
    by (intros n; exists Examples.name_not_resolved; reflexivity).
  split; [exact Hdead|].
  exact (proj1 (navigateWithRetry_unbounded
                  Examples.dead_page Examples.target initial) Hdead).
Defined.

(* ================================================================= *)
(** ** More on the extractor and the handler *)

Module RouteMore.

Lemma added_nil (t : list event) : t = t ++ [].
Proof. now rewrite app_nil_r. Qed.

Lemma added_more (t l added more : list event) :
  l = t ++ added -> l ++ more = t ++ (added ++ more).
Proof. intros ->. now rewrite app_assoc. Qed.

Lemma first_more (t l rest more : list event) (x : event) :
  l = t ++ x :: rest -> l ++ more = t ++ x :: (rest ++ more).
Proof. intros ->. now rewrite <- app_assoc. Qed.

(** The extractor starts by launching the browser. *)
Lemma extract_launches chromium fuel url s :
  exists c s' rest,
    extractPageMetadata chromium (S (S fuel)) url s = Some (c, s')
    /\ trace s' = trace s ++ Launch :: rest.
Proof.
  run_route.
  all: do 3 eexists; split; [reflexivity|]; cbn [trace].
  all: repeat first [reflexivity | apply first_more].
Qed.

End RouteMore.

(** X11.  [extractPageMetadata] returns a record only when the browser
    was launched, the context and the page were created, one of the
    navigations made during this very call succeeded and the document
    could be read; the record is then built from that document and the
    response of that navigation.  No navigation response at all never
    yields a record, and neither does a navigation made before the call
    or one the call did not get to. *)
Theorem record_needs_navigation chromium fuel url s payload s' :
  extractPageMetadata chromium fuel url s = Some (Normal payload, s') ->
  exists browser context page response document,
    launch_outcome chromium = Done browser
    /\ newContext_outcome browser = Done context
    /\ newPage_outcome context = Done page
    /\ (exists n, (navigations s <= n < navigations s')%nat
                  /\ goto_outcome page n = Done response)
    /\ evaluate_outcome page = Done document
    /\ payload = page_response (read_fields document) response.
Proof.
  unfold_route; simpl_route.
  repeat (case_outcome; simpl_route); try discriminate.
  all: match goal with
       | |- context [navigateWithRetry ?f ?p ?u ?a ?st] =>
           destruct (navigateWithRetry f p u a st)
             as [[[response|e] s3]|] eqn:Hnav; [| |discriminate];
           pose proof (navigateWithRetry_instance _ _ _ _ _ _ _ Hnav)
             as Hinstance;
           try apply RetryMore.navigateWithRetry_returns_goto in Hnav;
           cbn [instance navigations] in Hinstance, Hnav;
           simpl_route; rewrite Hinstance
       end.
  all: repeat (case_outcome; simpl_route); try discriminate.
  all: intros [= <- <-].
  all: destruct Hnav as (n & Hn & Hgoto).
  all: do 5 eexists; repeat split; try eassumption; try reflexivity.
  all: exists n; split; [cbn [navigations]; lia|exact Hgoto].
Qed.

Lemma record_needs_navigation_witness :
  exists s',
    extractPageMetadata Examples.flaky 2 Examples.target initial
    = Some (Normal Examples.expected, s')
    /\ exists browser context page response document,
        launch_outcome Examples.flaky = Done browser
        /\ newContext_outcome browser = Done context
        /\ newPage_outcome context = Done page
        /\ (exists n, (navigations initial <= n < navigations s')%nat
                      /\ goto_outcome page n = Done response)
        /\ evaluate_outcome page = Done document
        /\ Examples.expected
           = page_response (read_fields document) response.
Proof.
  eexists. split; [reflexivity|].
  exact (record_needs_navigation Examples.flaky 2 Examples.target initial
           Examples.expected _ eq_refl).
Defined.

(** X12.  One run of [extractPageMetadata] calls the browser in one of
    six ways, and in no other: launch alone (it failed); launch,
    context, close; launch, context, page, close; these three and two
    navigations, then close; or these three, one or two navigations, the
    wait for quiescence, the evaluation, then close.  So there is one
    launch per run, never a navigation without a page, never more than
    two navigations, never an evaluation without a wait before it, and
    nothing after [close]. *)
Theorem extraction_call_sequences chromium fuel url s :
  (2 <= fuel)%nat ->
  exists c s' added,
    extractPageMetadata chromium fuel url s = Some (c, s')
    /\ trace s' = trace s ++ added
    /\ let navigation := Goto url NAVIGATION_TIMEOUT_MS in
       let wait := WaitForLoadState NETWORK_IDLE_TIMEOUT_MS in
       In (browser_calls added)
          [ [Launch];
            [Launch; NewContext; Close];
            [Launch; NewContext; NewPage; Close];
            [Launch; NewContext; NewPage; navigation; navigation; Close];
            [Launch; NewContext; NewPage; navigation; wait; Evaluate; Close];
            [Launch; NewContext; NewPage; navigation; navigation;
             wait; Evaluate; Close] ].
Proof.
  intros Hfuel. destruct fuel as [|[|fuel]]; [lia|lia|].
  run_route.
  all: do 3 eexists; split; [reflexivity|]; cbn [trace].
  all: split; [repeat (apply RouteMore.added_more); apply RouteMore.added_nil|].
  all: cbn; auto 10.
Qed.

Lemma extraction_call_sequences_witness :
  (2 <= 2)%nat
  /\ exists c s' added,
      extractPageMetadata Examples.unreachable 2 Examples.target initial
      = Some (c, s')
      /\ trace s' = trace initial ++ added
      /\ browser_calls added
         = [Launch; NewContext; NewPage;
            Goto Examples.target NAVIGATION_TIMEOUT_MS;
            Goto Examples.target NAVIGATION_TIMEOUT_MS; Close].
Proof.
  split; [apply le_n|].
  destruct (extraction_call_sequences Examples.unreachable 2 Examples.target
              initial (le_n 2)) as (c & s' & added & Hrun & Htrace & _).
  exists c, s', added. split; [exact Hrun|]. split; [exact Htrace|].
  assert (Hs : Some (c, s')
               = extractPageMetadata Examples.unreachable 2 Examples.target
                                     initial) by (symmetry; exact Hrun).
  vm_compute in Hs. injection Hs as -> ->.
  cbn [trace initial app] in Htrace. subst added. reflexivity.
Defined.

Module HandlerMore.

(** The handler after the URL was accepted and the extraction ended
    as [c] in state [s1]: its response and the line it logs. *)
Lemma GET_result new_URL chromium fuel url order s c s1 :
  falsy (Some url) = false ->
  isValidHttpUrl new_URL url = true ->
  extractPageMetadata chromium fuel url s = Some (c, s1) ->
  (forall e, c = Throw e -> instanceof_RequestTimeoutError e = false) ->
  GET new_URL chromium fuel (Some url) order s
  = Some (Normal
            match order with
            | TimerFirst => timeoutResponse
            | OperationFirst =>
                match c with
                | Normal payload =>
                    {| body := PayloadBody payload;
                       http_status := 200;
                       cache_control := Some success_cache_control |}
                | Throw _ => failureResponse
                end
            end,
          match order with
          | TimerFirst => s1
          | OperationFirst =>
              match c with
              | Normal _ => after s1 [ConsoleLog (ScrapedLine url)] 0
              | Throw e =>
                  after s1
                    [ConsoleError
                       (FailedLine url
                          (if instanceof_Error e then message_of e
                           else lit "Unknown error"))] 0
              end
          end).
Proof.
  intros Htruthy Hvalid Hrun Hforeign.
  unfold GET. rewrite Htruthy. cbn [or_default orb]. rewrite Hvalid.
  cbn [negb]. unfold try_catch, bind at 1.
  destruct order.
  - rewrite await_operation_first, Hrun.
    destruct c as [payload|e]; [reflexivity|].
    rewrite (Hforeign e eq_refl). reflexivity.
  - rewrite (await_timer_first _ _ _ _ _ Hrun). reflexivity.
Qed.

Lemma GET_invalid new_URL chromium fuel targetUrl order s :
  falsy targetUrl || negb (isValidHttpUrl new_URL (or_default targetUrl []))
  = true ->
  GET new_URL chromium fuel targetUrl order s
  = Some (Normal invalidUrlResponse, s).
Proof. intros Hinvalid. unfold GET. now rewrite Hinvalid. Qed.

End HandlerMore.

(** X13.  [GET] never throws and, given two turns of fuel, always
    answers, with one of four responses: 400 "Invalid URL", 504
    "Timeout", 500 "Unable to complete scrape", or 200 with a payload
    and the cache header.  Whatever the browser threw, its message is in
    none of them. *)
Theorem GET_always_responds new_URL chromium fuel targetUrl order s :
  (2 <= fuel)%nat ->
  exists response s',
    GET new_URL chromium fuel targetUrl order s = Some (Normal response, s')
    /\ (response = invalidUrlResponse
        \/ response = timeoutResponse
        \/ response = failureResponse
        \/ exists payload,
            response = {| body := PayloadBody payload;
                          http_status := 200;
                          cache_control := Some success_cache_control |}).
Proof.
  intros Hfuel. destruct fuel as [|[|fuel]]; [lia|lia|].
  destruct (falsy targetUrl
            || negb (isValidHttpUrl new_URL (or_default targetUrl [])))
    eqn:Hinvalid.
  - rewrite HandlerMore.GET_invalid by exact Hinvalid. eauto.
  - apply orb_false_iff in Hinvalid. destruct Hinvalid as [Htruthy Hvalid].
    apply negb_false_iff in Hvalid.
    destruct targetUrl as [url|]; [|discriminate Htruthy].
    cbn [or_default] in Hvalid.
    destruct (extract_ends chromium fuel url s)
      as (c & s1 & Hrun & Hforeign & _).
    rewrite (HandlerMore.GET_result _ _ _ _ order _ _ _
               Htruthy Hvalid Hrun Hforeign).
    do 2 eexists. split; [reflexivity|].
    destruct order; [destruct c|]; eauto 6.
Qed.

Lemma GET_always_responds_witness :
  (2 <= 2)%nat
  /\ exists s',
      GET Examples.new_URL Examples.leaky 2 (Some Examples.target)
          OperationFirst initial
      = Some (Normal {| body := PayloadBody Examples.expected;
                        http_status := 200;
                        cache_control := Some success_cache_control |}, s').
Proof.
  split; [apply le_n|].
  destruct (GET_always_responds Examples.new_URL Examples.leaky 2
              (Some Examples.target) OperationFirst initial (le_n 2))
    as (response & s' & Hrun & _).
  exists s'. rewrite Hrun. f_equal. f_equal.
  assert (Hs : Some (Normal response, s')
               = GET Examples.new_URL Examples.leaky 2
                     (Some Examples.target) OperationFirst initial)
    by (symmetry; exact Hrun).
  vm_compute in Hs. injection Hs as -> _. reflexivity.
Defined.

(** X14.  Once the URL is accepted, the handler writes at most one line
    of its own, after everything the extraction did: the success line
    when the extraction returned first, the failure line when it threw
    first, carrying the message of the error, or "Unknown error" when
    what was thrown is not an [Error]; and nothing when the timer won. *)
Theorem GET_logs_after_extraction new_URL chromium fuel url order s :
  (2 <= fuel)%nat ->
  falsy (Some url) = false ->
  isValidHttpUrl new_URL url = true ->
  exists c s1 response,
    extractPageMetadata chromium fuel url s = Some (c, s1)
    /\ GET new_URL chromium fuel (Some url) order s
       = Some (Normal response,
               match order with
               | TimerFirst => s1
               | OperationFirst =>
                   match c with
                   | Normal _ => after s1 [ConsoleLog (ScrapedLine url)] 0
                   | Throw e =>
                       after s1
                         [ConsoleError
                            (FailedLine url
                               (if instanceof_Error e then message_of e
                                else lit "Unknown error"))] 0
                   end
               end).
Proof.
  intros Hfuel Htruthy Hvalid.
  destruct fuel as [|[|fuel]]; [lia|lia|].
  destruct (extract_ends chromium fuel url s)
    as (c & s1 & Hrun & Hforeign & _).
  exists c, s1. eexists. split; [exact Hrun|].
  apply HandlerMore.GET_result; assumption.
Qed.

Lemma GET_logs_after_extraction_witness :
  (2 <= 2)%nat
  /\ falsy (Some Examples.target) = false
  /\ isValidHttpUrl Examples.new_URL Examples.target = true
  /\ exists c s1 response,
      extractPageMetadata Examples.unreachable 2 Examples.target initial
      = Some (c, s1)
      /\ GET Examples.new_URL Examples.unreachable 2 (Some Examples.target)
             TimerFirst initial
         = Some (Normal response, s1).
Proof.
  split; [apply le_n|]. split; [reflexivity|]. split; [reflexivity|].
  exact (GET_logs_after_extraction
           Examples.new_URL Examples.unreachable 2 Examples.target
           TimerFirst initial (le_n 2) eq_refl eq_refl).
Defined.

(* ================================================================= *)
(** ** The client page *)

Ltac client_state :=
  unfold Client.submit_catch, Client.setResult, Client.setError,
    Client.setIsLoading, Client.setCompletedAt, Client.setUrl;
  cbn [Client.st_url Client.st_result Client.st_error Client.st_isLoading
       Client.st_completedAt fst snd].

Section ClientFacts.

Variable new_URL : jsstring -> option URL.
Variable encodeURIComponent : jsstring -> jsstring + Client.rejection.
Variable json : Type.
Variable error_of : json -> option jsstring.
Variable truthy : json -> bool.

Let state := Client.page_state json.
Let submit (fetch : jsstring -> Client.fetch_reply json) (now : jsstring)
    (st : state) : state :=
  fst (Client.handleSubmit new_URL encodeURIComponent error_of fetch now st).

(** X15.  However the encoding of the query, [fetch] and
    [response.json()] end, [handleSubmit] never leaves both [result]
    and [error] set.  It leaves neither set in one case only: the
    input passed validation and the server answered with an ok status
    and the JSON value [null].  It leaves the text of the input as it
    is; after a submit that passed validation [isLoading] is false
    again, while a submit that failed validation does not touch it. *)
Theorem handleSubmit_result_xor_error
  (fetch : jsstring -> Client.fetch_reply json) (now : jsstring)
  (st : state) :
  let st' := submit fetch now st in
  let valid := Client.isValidHttpUrl new_URL (trim (Client.st_url st)) in
  (Client.st_result st' = None \/ Client.st_error st' = None)
  /\ (Client.st_result st' = None /\ Client.st_error st' = None
      <-> valid = true
          /\ exists encoded,
              encodeURIComponent (trim (Client.st_url st)) = inl encoded
              /\ fetch (lit "/api/scrape?url=" ++ encoded)
                 = Client.Responds true (Client.Parsed None))
  /\ Client.st_url st' = Client.st_url st
  /\ Client.st_isLoading st' = negb valid && Client.st_isLoading st.
Proof.
  unfold submit, Client.handleSubmit, Client.submit_try. cbv zeta.
  destruct (Client.isValidHttpUrl new_URL (trim (Client.st_url st)));
    cbn [negb fst andb].
  - destruct (encodeURIComponent _) as [encoded|err].
    + destruct (fetch _) as [ok [data|err]|err] eqn:Hfetch;
        [destruct ok; [destruct data|]; cbn [negb]| |];
        try destruct err; client_state;
        (split; [auto|]); (split; [|split; reflexivity]);
        (split;
         [ first [ intros [H1 H2]; discriminate H1
                 | intros [H1 H2]; discriminate H2
                 | intros _; split; [reflexivity|];
                   exists encoded; split; [reflexivity|exact Hfetch] ]
         | first [ intros _; split; reflexivity
                 | intros [_ (enc & Henc & Hnull)];
                   injection Henc as <-; rewrite Hfetch in Hnull;
                   discriminate Hnull ] ]).
    + destruct err; client_state; (split; [auto|]);
        (split; [|split; reflexivity]);
        (split; [intros [H1 H2]; discriminate H2
                |intros [_ (enc & Henc & _)]; discriminate Henc]).
  - client_state. split; [auto|]. split; [|split; reflexivity].
    split; [intros [_ H2]; discriminate H2|intros [H1 _]; discriminate H1].
Qed.

(** X16.  After [handleSubmit], whatever happened, the view renders
    exactly one of its three panels: the error, the result, or the
    "No scrape yet" placeholder.  (The placeholder is what shows after
    a failure whose message is the empty string, or a success whose
    JSON value is falsy.) *)
Theorem handleSubmit_shows_one_panel
  (fetch : jsstring -> Client.fetch_reply json) (now : jsstring)
  (st : state) :
  let st' := submit fetch now st in
  (if Client.shows_error st' then 1 else 0)
  + (if Client.shows_result truthy st' then 1 else 0)
  + (if Client.shows_placeholder truthy st' then 1 else 0) = 1.
Proof.
  unfold submit, Client.handleSubmit, Client.submit_try. cbv zeta.
  unfold Client.shows_placeholder, Client.shows_result, Client.shows_error.
  destruct (Client.isValidHttpUrl new_URL (trim (Client.st_url st)));
    cbn [negb fst]; [|client_state; reflexivity].
  destruct (encodeURIComponent _) as [encoded|err];
    [destruct (fetch _) as [ok [data|err]|err];
     [destruct ok; cbn [negb]| |]|]; try destruct err; client_state.
  all: try reflexivity.
  all: try (destruct message; reflexivity).
  - destruct data as [value|]; [now destruct (truthy value)|reflexivity].
  - now destruct (or_default (Client.data_error error_of data) _).
Qed.

(** X17.  No stale data survives a submit: what [handleSubmit] leaves
    and does depends on the previous state only through the text of
    the input, the loading flag and the completion time, not through
    the previous result or error. *)
Theorem handleSubmit_forgets_previous
  (fetch : jsstring -> Client.fetch_reply json) (now : jsstring)
  (st1 st2 : state) :
  Client.st_url st1 = Client.st_url st2 ->
  Client.st_isLoading st1 = Client.st_isLoading st2 ->
  Client.st_completedAt st1 = Client.st_completedAt st2 ->
  Client.handleSubmit new_URL encodeURIComponent error_of fetch now st1
  = Client.handleSubmit new_URL encodeURIComponent error_of fetch now st2.
Proof.
  intros Hurl Hloading Hcompleted.
  unfold Client.handleSubmit, Client.submit_try, Client.submit_catch,
    Client.setResult, Client.setError, Client.setIsLoading,
    Client.setCompletedAt.
  cbn [Client.st_url Client.st_result Client.st_error Client.st_isLoading
       Client.st_completedAt].
  now rewrite Hurl, Hloading, Hcompleted.
Qed.

(** X18.  A text the form accepts is one the route accepts: if the
    page's [isValidHttpUrl] holds of the trimmed input and the parser
    rejects the empty string, then [GET], given that very string as
    its [url] parameter, does not answer 400 "Invalid URL" but goes
    on to the extraction. *)
Theorem accepted_by_form_accepted_by_route
  (chromium : Chromium) (fuel : nat) (order : race_order) (s : Effect.state)
  (text : jsstring) :
  new_URL [] = None ->
  Client.isValidHttpUrl new_URL (trim text) = true ->
  (2 <= fuel)%nat ->
  falsy (Some (trim text)) = false
  /\ isValidHttpUrl new_URL (trim text) = true
  /\ exists response s',
      GET new_URL chromium fuel (Some (trim text)) order s
      = Some (Normal response, s')
      /\ response <> invalidUrlResponse
      /\ In Launch (trace s').
Proof.
  intros Hempty Hvalid Hfuel.
  assert (Htruthy : falsy (Some (trim text)) = false).
  { destruct (trim text) eqn:Htext; [|reflexivity].
    unfold Client.isValidHttpUrl in Hvalid. rewrite Hempty in Hvalid.
    discriminate Hvalid. }
  change (isValidHttpUrl new_URL (trim text) = true) in Hvalid.
  split; [exact Htruthy|]. split; [exact Hvalid|].
  destruct fuel as [|[|fuel]]; [lia|lia|].
  destruct (extract_ends chromium fuel (trim text) s)
    as (c & s1 & Hrun & Hforeign & _).
  destruct (RouteMore.extract_launches chromium fuel (trim text) s)
    as (c' & s1' & rest & Hrun' & Htrace).
  rewrite Hrun in Hrun'. injection Hrun' as <- <-.
  rewrite (HandlerMore.GET_result _ _ _ _ order _ _ _
             Htruthy Hvalid Hrun Hforeign).
  do 2 eexists. split; [reflexivity|]. split.
  - destruct order; [destruct c|]; discriminate.
  - destruct order; [destruct c|]; cbn [after trace]; rewrite Htrace;
      rewrite !in_app_iff; cbn [In]; auto 6.
Qed.

End ClientFacts.

Lemma handleSubmit_forgets_previous_witness :
  Client.st_url (ClientExamples.stale Examples.target)
  = Client.st_url (ClientExamples.typed Examples.target)
  /\ Client.handleSubmit Examples.new_URL ClientExamples.encode
       ClientExamples.error_of ClientExamples.times_out []
       (ClientExamples.stale Examples.target)
     = ({| Client.st_url := Examples.target;
           Client.st_result := None;
           Client.st_error := Some (lit "Timeout");
           Client.st_isLoading := false;
           Client.st_completedAt := [] |},
        [Client.PreventDefault;
         Client.SetTimeout Client.CLIENT_TIMEOUT_MS;
         Client.Fetch (lit "/api/scrape?url=https%3A%2F%2Fexample.com%2F");
         Client.ClearTimeout]).
Proof.
  split; [reflexivity|].
  rewrite (handleSubmit_forgets_previous
             Examples.new_URL ClientExamples.encode json_body
             ClientExamples.error_of ClientExamples.times_out []
             (ClientExamples.stale Examples.target)
             (ClientExamples.typed Examples.target)
             eq_refl eq_refl eq_refl).
  reflexivity.
Defined.

Lemma accepted_by_form_accepted_by_route_witness :
  Examples.new_URL [] = None
  /\ Client.isValidHttpUrl Examples.new_URL
       (trim (lit "  https://example.com/ ")) = true
  /\ (2 <= 2)%nat
  /\ exists response s',
      GET Examples.new_URL Examples.healthy 2
          (Some (trim (lit "  https://example.com/ "))) OperationFirst initial
      = Some (Normal response, s')
      /\ response <> invalidUrlResponse
      /\ In Launch (trace s').
Proof.
  split; [reflexivity|]. split; [reflexivity|]. split; [apply le_n|].
  exact (proj2 (proj2 (accepted_by_form_accepted_by_route
                         Examples.new_URL Examples.healthy 2 OperationFirst
                         initial (lit "  https://example.com/ ")
                         eq_refl eq_refl (le_n 2)))).
Defined.
